(** * ClaudeDevKit scanner core: a shallow embedding and its properties

    The resilience control plane of the scanner ([scanner/security]) and the
    plugin loader ([scanner/plugin_loader]) are embedded as Rocq functions,
    one module per Python source file.

    Conventions of the embedding.
    - A Python [float] holding a duration, a clock reading or a token count
      is a rational [Q]; arithmetic is exact.  Comparisons are the decidable
      ones of [QArith] ([Qle_bool], [Qlt_le_dec]).
    - A Python [int] is a [Z].
    - A [str] that reaches [json.dumps] (the text fields of an audit event,
      the strings of [Any]-typed values) is a list of code points; names,
      paths and the texts the program writes itself are [string]s.
    - [time.monotonic()] is an explicit argument [now] of the method that
      reads it.
    - An [asyncio.Lock] held around a method body that contains no [await]
      makes the body atomic; such a method is one pure state transformer.
    - Diagnostics sent to the [logging] module do not influence any state
      and are left out, except in the audit logger where they are part of
      the observable trace. *)

From Stdlib Require Import QArith Qminmax Lqa ZArith Lia Ascii String.
From Stdlib Require Import Decimal DecimalString DecimalZ DecimalPos.
From stdpp Require Import gmap strings list fin_maps.

(* ===================================================================== *)
(** * Part I: the program                                                 *)
(* ===================================================================== *)

(** ** Python exceptions and call outcomes *)

Module py.

(** The exception values that matter to the code: the breaker's own error
    class, any other subclass of [Exception], and the [BaseException]s that
    are not [Exception]s ([asyncio.CancelledError], [KeyboardInterrupt],
    [SystemExit]) and therefore escape an [except Exception] clause. *)
Inductive exn : Type :=
| CircuitBreakerError (msg : string)
| OtherException (cls msg : string)
| NonException (cls : string).

Definition isinstance_Exception (e : exn) : bool :=
  match e with
  | NonException _ => false
  | _ => true
  end.

Inductive outcome (T : Type) : Type :=
| Return (v : T)
| Raise (e : exn).
Arguments Return {T} v.
Arguments Raise {T} e.

(** The text of a [str] that comes from outside (a message, the strings of
    a manifest or of audit details): a sequence of code points.  A [str]
    can hold every code point below 0x110000, the surrogates U+D800 to
    U+DFFF included.  Names, paths and the texts the program itself writes
    are [string]s; [lit] gives the code points of one. *)
Definition str : Type := list N.

Definition lit (s : string) : str := map N_of_ascii (list_ascii_of_string s).

(** The Python values that travel through [Any]-typed fields (plugin
    manifests, audit details).  A [dict] keeps its insertion order and has
    [str] keys; [VObject] stands for every other object (a [set], [bytes],
    a [datetime], a class instance, ...), identified by its [repr].  Floats
    are not modelled. *)
#[warnings="-register-all"]
Inductive value : Type :=
| VNone
| VBool (b : bool)
| VInt (z : Z)
| VStr (s : str)
| VList (l : list value)
| VTuple (l : list value)
| VDict (d : list (str * value))
| VObject (repr : string).

(** [d.get(key, default)] on an insertion-ordered dict. *)
Fixpoint dict_get (d : list (str * value)) (key : str) (default : value)
  : value :=
  match d with
  | [] => default
  | (k, v) :: d' => if bool_decide (k = key) then v else dict_get d' key default
  end.

(** [str(e)] of an exception. *)
Definition exn_str (e : exn) : string :=
  match e with
  | CircuitBreakerError msg => msg
  | OtherException _ msg => msg
  | NonException _ => ""
  end.

(** [sep.join(parts)] *)
Fixpoint join (sep : string) (parts : list string) : string :=
  match parts with
  | [] => ""
  | x :: rest =>
      match rest with
      | [] => x
      | _ :: _ => x +:+ sep +:+ join sep rest
      end
  end.

(** [str(n)] of an [int]. *)
Definition str_of_int (z : Z) : string :=
  NilEmpty.string_of_int (Z.to_int z).

(** A list slice [l[k:]]: a negative [k] counts from the end. *)
Definition slice_from {A : Type} (k : Z) (l : list A) : list A :=
  if (k <? 0)%Z then drop (Z.to_nat (Z.of_nat (length l) + k)) l
  else drop (Z.to_nat k) l.

(** Python's two-argument [min(a, b)]: the first argument unless the second
    is strictly smaller. *)
Definition min (a b : Q) : Q := if Qlt_le_dec b a then b else a.

End py.

(** ** scanner/security/circuit_breaker.py *)

Module circuit_breaker.
Import py.

Inductive CircuitState : Type := CLOSED | OPEN | HALF_OPEN.

#[global] Instance CircuitState_eq_dec : EqDecision CircuitState.
Proof. solve_decision. Defined.

Record CircuitBreaker : Type := mkCircuitBreaker {
  name : string;
  failure_threshold : Z;
  recovery_timeout : Q;
  success_threshold : Z;
  _state : CircuitState;
  _failure_count : Z;
  _success_count : Z;
  _last_failure_time : Q
}.

(** The dataclass constructor: the four [init=True] fields are given, the
    others take their defaults. *)
Definition new (nm : string) (ft : Z) (rt : Q) (st : Z) : CircuitBreaker :=
  mkCircuitBreaker nm ft rt st CLOSED 0 0 0.

Definition set_state (s : CircuitState) (self : CircuitBreaker) :=
  mkCircuitBreaker (name self) (failure_threshold self) (recovery_timeout self)
    (success_threshold self) s (_failure_count self) (_success_count self)
    (_last_failure_time self).

Definition set_failure_count (n : Z) (self : CircuitBreaker) :=
  mkCircuitBreaker (name self) (failure_threshold self) (recovery_timeout self)
    (success_threshold self) (_state self) n (_success_count self)
    (_last_failure_time self).

Definition set_success_count (n : Z) (self : CircuitBreaker) :=
  mkCircuitBreaker (name self) (failure_threshold self) (recovery_timeout self)
    (success_threshold self) (_state self) (_failure_count self) n
    (_last_failure_time self).

Definition set_last_failure_time (t : Q) (self : CircuitBreaker) :=
  mkCircuitBreaker (name self) (failure_threshold self) (recovery_timeout self)
    (success_threshold self) (_state self) (_failure_count self)
    (_success_count self) t.

Definition is_closed (self : CircuitBreaker) : bool :=
  bool_decide (_state self = CLOSED).
Definition is_open (self : CircuitBreaker) : bool :=
  bool_decide (_state self = OPEN).
Definition is_half_open (self : CircuitBreaker) : bool :=
  bool_decide (_state self = HALF_OPEN).

(** [_transition_to]: the state is assigned, then counters are reset
    according to the NEW state: both for CLOSED, [_success_count] for
    HALF_OPEN, none for OPEN. *)
Definition _transition_to (new_state : CircuitState) (self : CircuitBreaker)
  : CircuitBreaker :=
  let self := set_state new_state self in
  match new_state with
  | CLOSED => set_success_count 0 (set_failure_count 0 self)
  | HALF_OPEN => set_success_count 0 self
  | OPEN => self
  end.

Definition can_execute (now : Q) (self : CircuitBreaker)
  : bool * CircuitBreaker :=
  match _state self with
  | CLOSED => (true, self)
  | OPEN =>
      let elapsed := (now - _last_failure_time self)%Q in
      if Qle_bool (recovery_timeout self) elapsed
      then (true, _transition_to HALF_OPEN self)
      else (false, self)
  | HALF_OPEN => (true, self)
  end.

Definition record_success (self : CircuitBreaker) : CircuitBreaker :=
  let self := set_failure_count 0 self in
  match _state self with
  | HALF_OPEN =>
      let self := set_success_count (_success_count self + 1) self in
      if (success_threshold self <=? _success_count self)%Z
      then _transition_to CLOSED self
      else self
  | _ => self
  end.

Definition record_failure (now : Q) (self : CircuitBreaker) : CircuitBreaker :=
  let self := set_last_failure_time now self in
  match _state self with
  | HALF_OPEN => _transition_to OPEN self
  | CLOSED =>
      let self := set_failure_count (_failure_count self + 1) self in
      if (failure_threshold self <=? _failure_count self)%Z
      then _transition_to OPEN self
      else self
  | OPEN => self
  end.

Definition reset (self : CircuitBreaker) : CircuitBreaker :=
  _transition_to CLOSED self.

(** The wrapped function.  [body] receives the clock reading at which it is
    entered and yields its outcome together with the clock reading at which
    it finishes; [iscoroutinefunction] selects between [await func(...)] and
    [func(...)]. *)
Record callable (T : Type) : Type := mkCallable {
  iscoroutinefunction : bool;
  body : Q -> outcome T * Q
}.
Arguments mkCallable {T} _ _.
Arguments iscoroutinefunction {T} _.
Arguments body {T} _ _.

(** What one [execute] call leaves behind: what it returned or raised, the
    breaker, the clock, and how many times the wrapped function was
    entered. *)
Record run (T : Type) : Type := mkRun {
  result : outcome T;
  breaker : CircuitBreaker;
  clock : Q;
  invoked : nat
}.
Arguments mkRun {T} _ _ _ _.
Arguments result {T} _.
Arguments breaker {T} _.
Arguments clock {T} _.
Arguments invoked {T} _.

Definition open_message (self : CircuitBreaker) : string :=
  "Circuit '" +:+ name self +:+ "' is open".

Definition execute {T : Type} (func : callable T) (now : Q)
    (self : CircuitBreaker) : run T :=
  let '(admitted, self) := can_execute now self in
  if negb admitted
  then mkRun (Raise (CircuitBreakerError (open_message self))) self now 0
  else
    let '(r, now') :=
      if iscoroutinefunction func then body func now else body func now in
    match r with
    | Return v => mkRun (Return v) (record_success self) now' 1
    | Raise e =>
        if isinstance_Exception e
        then mkRun (Raise e) (record_failure now' self) now' 1
        else mkRun (Raise e) self now' 1
    end.

(** *** Sequences of calls on one breaker *)

(** The calls that change a breaker, each with the clock reading it
    observes where it reads the clock. *)
Inductive op : Type :=
| CanExecute (now : Q)
| RecordSuccess
| RecordFailure (now : Q)
| Reset.

Definition step (self : CircuitBreaker) (o : op) : CircuitBreaker :=
  match o with
  | CanExecute now => snd (can_execute now self)
  | RecordSuccess => record_success self
  | RecordFailure now => record_failure now self
  | Reset => reset self
  end.

Definition run_ops (ops : list op) (self : CircuitBreaker) : CircuitBreaker :=
  foldl step self ops.

(** The breaker is OPEN after every operation of a sequence. *)
Fixpoint stays_open (ops : list op) (self : CircuitBreaker) : Prop :=
  match ops with
  | [] => True
  | o :: rest => _state (step self o) = OPEN /\ stays_open rest (step self o)
  end.

(** [record_failure] called once per clock reading of a list, in order. *)
Definition record_failures (times : list Q) (self : CircuitBreaker)
  : CircuitBreaker :=
  foldl (fun cb t => record_failure t cb) self times.

(** [record_success] called [k] times. *)
Definition record_successes (k : nat) (self : CircuitBreaker)
  : CircuitBreaker :=
  Nat.iter k record_success self.

(** *** get_stats and CircuitBreakerRegistry *)

Record breaker_stats : Type := mkBreakerStats {
  stats_name : string;
  stats_state : string;
  stats_failure_count : Z;
  stats_success_count : Z;
  stats_failure_threshold : Z;
  stats_recovery_timeout : Q
}.

(** [CircuitState.value] *)
Definition state_value (s : CircuitState) : string :=
  match s with
  | CLOSED => "closed"
  | OPEN => "open"
  | HALF_OPEN => "half_open"
  end.

Definition get_stats (self : CircuitBreaker) : breaker_stats :=
  mkBreakerStats (name self) (state_value (_state self))
    (_failure_count self) (_success_count self) (failure_threshold self)
    (recovery_timeout self).

(** The keyword arguments [get] forwards to the constructor: each of the
    three settings is given or left at its default. *)
Record kwargs : Type := mkKwargs {
  kw_failure_threshold : option Z;
  kw_recovery_timeout : option Q;
  kw_success_threshold : option Z
}.

(** [CircuitBreaker(name=name, **kwargs)] with the dataclass defaults 5,
    30.0 and 3. *)
Definition construct (nm : string) (kw : kwargs) : CircuitBreaker :=
  new nm (default 5%Z (kw_failure_threshold kw))
    (default 30%Q (kw_recovery_timeout kw))
    (default 3%Z (kw_success_threshold kw)).

(** The registry's [_breakers]: the breakers by name.  A breaker is reached
    through its name; a call on a breaker is a change of the entry. *)
Definition get (nm : string) (kw : kwargs)
    (breakers : gmap string CircuitBreaker)
  : CircuitBreaker * gmap string CircuitBreaker :=
  match breakers !! nm with
  | Some cb => (cb, breakers)
  | None => (construct nm kw, <[nm := construct nm kw]> breakers)
  end.

Definition get_all_stats (breakers : gmap string CircuitBreaker)
  : gmap string breaker_stats :=
  get_stats <$> breakers.

(** What every breaker built by the constructor and driven through its
    methods satisfies, for positive thresholds. *)
Definition consistent (self : CircuitBreaker) : Prop :=
  (0 <= _failure_count self)%Z /\ (0 <= _success_count self)%Z
  /\ (_state self = CLOSED -> (_failure_count self < failure_threshold self)%Z)
  /\ (_state self = HALF_OPEN ->
      (_success_count self < success_threshold self)%Z).

(** A session on a breaker and keyword arguments, for examples. *)
Definition demo_ops : list op :=
  [RecordFailure 1; RecordSuccess; RecordFailure 2; CanExecute 3;
   RecordFailure 4; Reset; RecordFailure 5; RecordFailure 6].

Definition demo_times : list Q := [1; 2; 4]%Q.

Definition demo_kwargs : kwargs := mkKwargs (Some 1%Z) (Some 0%Q) (Some 1%Z).

(** A breaker that reached HALF_OPEN with one success on record, built
    through the public methods only: one failure opens it (threshold 1), the
    admission check at the same instant half-opens it (recovery timeout 0),
    one success is recorded (threshold 3). *)
Definition half_open_one_success : CircuitBreaker :=
  record_success (snd (can_execute 0 (record_failure 0 (new "default" 1 0 3)))).

(** A breaker that opened at clock reading 5 with the default settings. *)
Definition open_at_5 : CircuitBreaker :=
  mkCircuitBreaker "default" 5 30 3 OPEN 5 0 5.

(** A coroutine function that takes one second and raises [ValueError]. *)
Definition failing_call : callable Z :=
  mkCallable true
    (fun t => (Raise (OtherException "ValueError" "test error"), (t + 1)%Q)).

End circuit_breaker.

(** ** scanner/security/rate_limiter.py *)

Module rate_limiter.

Record TokenBucket : Type := mkTokenBucket {
  capacity : Q;
  rate : Q;
  _tokens : Q;
  _last_update : Q
}.

(** Construction: [_last_update] is read from the monotonic clock and
    [__post_init__] fills the bucket. *)
Definition new (cap rt now : Q) : TokenBucket :=
  mkTokenBucket cap rt cap now.

Definition _refill (now : Q) (self : TokenBucket) : TokenBucket :=
  let elapsed := (now - _last_update self)%Q in
  mkTokenBucket (capacity self) (rate self)
    (py.min (capacity self) (_tokens self + elapsed * rate self)%Q)
    now.

Definition consume (now : Q) (tokens : Q) (self : TokenBucket)
  : bool * TokenBucket :=
  let self := _refill now self in
  if Qle_bool tokens (_tokens self)
  then (true, mkTokenBucket (capacity self) (rate self)
                (_tokens self - tokens)%Q (_last_update self))
  else (false, self).

Definition available_tokens (self : TokenBucket) : Q := _tokens self.

(** The operations that touch a bucket's token count, each with the clock
    reading it observes: a [consume(n)] call, and the bare [_refill] that
    [wait_for_tokens] performs under the lock. *)
Inductive op : Type :=
| Consume (now : Q) (n : Q)
| Refill (now : Q).

Definition op_time (o : op) : Q :=
  match o with Consume now _ => now | Refill now => now end.

Definition op_amount (o : op) : Q :=
  match o with Consume _ n => n | Refill _ => 0 end.

Definition step (self : TokenBucket) (o : op) : TokenBucket :=
  match o with
  | Consume now n => snd (consume now n self)
  | Refill now => _refill now self
  end.

(** The bucket after each operation of a sequence, in order. *)
Fixpoint history (self : TokenBucket) (ops : list op) : list TokenBucket :=
  match ops with
  | [] => []
  | o :: ops => let self := step self o in self :: history self ops
  end.

(** The clock never goes back: every reading is at least the previous one,
    starting from the reading [t] stored in the bucket. *)
Fixpoint monotonic (t : Q) (ops : list op) : Prop :=
  match ops with
  | [] => True
  | o :: ops => (t <= op_time o)%Q /\ monotonic (op_time o) ops
  end.

Definition invariant (self : TokenBucket) : Prop :=
  (0 <= _tokens self)%Q /\ (_tokens self <= capacity self)%Q.

(** *** wait_for_tokens

    One round of the loop meets the scheduler three times: some time goes
    by before [consume] reads the clock, some more before the second
    [_refill] reads it, and [asyncio.sleep] returns some time after the delay
    asked for (at once for a delay that is not positive).  [env] gives these
    three lags round by round; when it runs out the call is still
    waiting. *)
Inductive wait_result : Type :=
| Done (finished : Q) (bucket : TokenBucket)
| Waiting (at_time : Q) (bucket : TokenBucket)
| Failed (e : py.exn) (bucket : TokenBucket).

Definition sleep_time (delay : Q) : Q :=
  if Qlt_le_dec 0 delay then delay else 0.

Definition ZeroDivisionError : py.exn :=
  py.OtherException "ZeroDivisionError" "float division by zero".

Fixpoint wait_for_tokens (env : list (Q * Q * Q)) (now : Q) (tokens : Q)
    (self : TokenBucket) : wait_result :=
  match env with
  | [] => Waiting now self
  | (lag1, lag2, lag3) :: env' =>
      let t1 := (now + lag1)%Q in
      let '(ok, self) := consume t1 tokens self in
      if ok then Done t1 self
      else
        let t2 := (t1 + lag2)%Q in
        let self := _refill t2 self in
        let needed := (tokens - _tokens self)%Q in
        if Qle_bool needed 0 then wait_for_tokens env' t2 tokens self
        else if Qeq_bool (rate self) 0 then Failed ZeroDivisionError self
        else
          let wait_time := (needed / rate self)%Q in
          wait_for_tokens env' (t2 + sleep_time wait_time + lag3)%Q tokens self
  end.

(** *** RateLimiter *)

Record RateLimiter : Type := mkRateLimiter {
  _capacity : Q;
  _rate : Q;
  _key_func : string -> string;
  _buckets : gmap string TokenBucket
}.

(** [__init__]: [key_func or (lambda x: x)] *)
Definition new_limiter (cap rt : Q) (key_func : option (string -> string))
  : RateLimiter :=
  mkRateLimiter cap rt (default (fun x => x) key_func) ∅.

(** The lookup both [check] and [wait] start with: the bucket of the derived
    key, created full at clock reading [created] when there is none. *)
Definition bucket_for (created : Q) (key : string) (self : RateLimiter)
  : string * TokenBucket :=
  let bucket_key := _key_func self key in
  match _buckets self !! bucket_key with
  | Some bucket => (bucket_key, bucket)
  | None => (bucket_key, new (_capacity self) (_rate self) created)
  end.

Definition store (bucket_key : string) (bucket : TokenBucket)
    (self : RateLimiter) : RateLimiter :=
  mkRateLimiter (_capacity self) (_rate self) (_key_func self)
    (<[bucket_key := bucket]> (_buckets self)).

(** [check]: [created] is the clock reading a new bucket is stamped with,
    [now] the one [consume] takes. *)
Definition check (created now : Q) (key : string) (tokens : Q)
    (self : RateLimiter) : bool * RateLimiter :=
  let '(bucket_key, bucket) := bucket_for created key self in
  let '(ok, bucket) := consume now tokens bucket in
  (ok, store bucket_key bucket self).

Definition wait_result_bucket (r : wait_result) : TokenBucket :=
  match r with
  | Done _ b => b
  | Waiting _ b => b
  | Failed _ b => b
  end.

Definition wait (created : Q) (env : list (Q * Q * Q)) (now : Q)
    (key : string) (tokens : Q) (self : RateLimiter)
  : wait_result * RateLimiter :=
  let '(bucket_key, bucket) := bucket_for created key self in
  let r := wait_for_tokens env now tokens bucket in
  (r, store bucket_key (wait_result_bucket r) self).

Definition reset (key : string) (self : RateLimiter) : RateLimiter :=
  mkRateLimiter (_capacity self) (_rate self) (_key_func self)
    (delete (_key_func self key) (_buckets self)).

Definition reset_all (self : RateLimiter) : RateLimiter :=
  mkRateLimiter (_capacity self) (_rate self) (_key_func self) ∅.

Record limiter_stats : Type := mkLimiterStats {
  total_buckets : nat;
  stats_capacity : Q;
  stats_rate : Q;
  stats_buckets : gmap string (Q * Q)
}.

Definition get_stats (self : RateLimiter) : limiter_stats :=
  mkLimiterStats (size (_buckets self)) (_capacity self) (_rate self)
    ((fun b => (available_tokens b, capacity b)) <$> _buckets self).

(** Rounds with lags for examples, and a bucket that is never refilled. *)
Definition demo_env : list (Q * Q * Q) :=
  [(0, 0, 1 # 100); (1 # 100, 0, 0); (0, 0, 0)]%Q.

Definition stalled_bucket : TokenBucket := mkTokenBucket 3 0 0 0.

Definition demo_limiter : RateLimiter := new_limiter 3 (1 # 10) None.

(** What an operation at clock reading [t] needs to find:
    the token count is within bounds, the rate is not negative and the
    stored clock reading is not in the future. *)
Definition ready (t : Q) (self : TokenBucket) : Prop :=
  invariant self /\ (0 <= rate self)%Q /\ (_last_update self <= t)%Q.

(** A bucket of capacity 3 refilled at one token per ten seconds, created at
    clock reading 0, and a burst of four single-token requests followed by a
    bare refill. *)
Definition small_bucket : TokenBucket := new 3 (1 # 10) 0.

Definition burst : list op :=
  [Consume 1 1; Consume 1 1; Consume 2 1; Consume 2 1; Refill 12].

End rate_limiter.

(** ** scanner/security/timeout.py *)

Module timeout.
Import py.

(** common/constants: the timeout defaults, in seconds. *)
Definition DEFAULT_CONNECT_TIMEOUT : Q := 10.
Definition DEFAULT_READ_TIMEOUT : Q := 30.
Definition DEFAULT_TOTAL_TIMEOUT : Q := 60.

Record TimeoutConfig : Type := mkTimeoutConfig {
  connect : Q;
  read : Q;
  total : Q
}.

(** [TimeoutConfig()] with every field at its default. *)
Definition TimeoutConfig_default : TimeoutConfig :=
  mkTimeoutConfig DEFAULT_CONNECT_TIMEOUT DEFAULT_READ_TIMEOUT
    DEFAULT_TOTAL_TIMEOUT.

Record TimeoutController : Type := mkTimeoutController {
  _default_config : TimeoutConfig;
  _custom_timeouts : gmap string TimeoutConfig
}.

(** [__init__]: [default_config or TimeoutConfig()]; a dataclass instance is
    always truthy, so only [None] selects the right operand. *)
Definition new (default_config : option TimeoutConfig) : TimeoutController :=
  mkTimeoutController
    (match default_config with
     | Some c => c
     | None => TimeoutConfig_default
     end)
    ∅.

(** Truth value of a [str]: false exactly for the empty string. *)
Definition str_bool (s : string) : bool :=
  match s with
  | EmptyString => false
  | String _ _ => true
  end.

Definition set_timeout (key : string) (config : TimeoutConfig)
    (self : TimeoutController) : TimeoutController :=
  mkTimeoutController (_default_config self)
    (<[key := config]> (_custom_timeouts self)).

(** [if key and key in self._custom_timeouts]: [key] is [None] or a string;
    the lookup is only made for a truthy key. *)
Definition get_timeout (key : option string) (self : TimeoutController)
  : TimeoutConfig :=
  match key with
  | Some k =>
      if str_bool k
      then match _custom_timeouts self !! k with
           | Some c => c
           | None => _default_config self
           end
      else _default_config self
  | None => _default_config self
  end.

Definition clear_timeout (key : string) (self : TimeoutController)
  : TimeoutController :=
  mkTimeoutController (_default_config self)
    (delete key (_custom_timeouts self)).

Section with_asyncio.
(** [asyncio.wait_for(coro, timeout=t)] belongs to the runtime: it maps
    the awaited work and the deadline to what the caller observes. *)
Context {coroutine T : Type}.
Variable wait_for : coroutine -> Q -> outcome T.

Definition execute_with_timeout (coro : coroutine) (timeout : option Q)
    (key : option string) (self : TimeoutController) : outcome T :=
  let timeout :=
    match timeout with
    | None => total (get_timeout key self)
    | Some t => t
    end in
  wait_for coro timeout.

Definition execute_with_timeout_config (coro : coroutine)
    (config : TimeoutConfig) (self : TimeoutController) : outcome T :=
  wait_for coro (total config).
End with_asyncio.

End timeout.

(** ** scanner/plugin_loader/__init__.py *)

Module plugin_loader.
Import py.

(** [str.split(sep)] for a one-character separator: never empty. *)
Fixpoint split (sep : ascii) (s : string) : list string :=
  match s with
  | EmptyString => [EmptyString]
  | String c s' =>
      if Ascii.eqb c sep
      then EmptyString :: split sep s'
      else match split sep s' with
           | p :: ps => String c p :: ps
           | [] => [String c EmptyString]
           end
  end.

Definition ALLOWED_MODULES : gset string :=
  {[ "httpx"; "requests"; "json"; "re"; "asyncio"; "datetime"; "hashlib";
     "base64"; "urllib.parse"; "socket"; "ssl"; "struct"; "binascii" ]}.

Definition BLOCKED_BUILTINS : gset string :=
  {[ "eval"; "exec"; "compile"; "open"; "__import__"; "globals"; "locals";
     "vars"; "dir"; "getattr"; "setattr"; "delattr"; "hasattr" ]}.

(** [module_name.split(".")[0]] *)
Definition base_module (module_name : string) : string :=
  hd EmptyString (split "." module_name).

Definition check_import (module_name : string) : bool :=
  if bool_decide (module_name ∈ ALLOWED_MODULES)
  then true
  else bool_decide (base_module module_name ∈ ALLOWED_MODULES).

(** The spec's wording for the second test of [check_import]: [p] is the
    prefix of [n] up to the first ['.'], the whole of [n] when it has
    none. *)
Definition prefix_to_first_dot (n p : string) : Prop :=
  ~ In "."%char (list_ascii_of_string p)
  /\ (n = p \/ exists rest, n = p +:+ "." +:+ rest).


(** *** PluginInfo and PluginLoader *)

Record PluginInfo : Type := mkPluginInfo {
  plugin_id : string;
  name : value;
  plugin_type : string;
  file_path : string;
  md5 : string;
  enabled : bool;
  metadata : list (str * value);
  _instance : option string
}.

(** One entry of [dir(module)]: the attribute name and the two tests the
    loader makes on the attribute. *)
Record attribute : Type := mkAttribute {
  attr_name : string;
  is_type : bool;
  has_verify : bool
}.

(** The module object obtained by executing a plugin file: its
    [__vuln_info__] mapping when it has one, and [dir(module)] in order. *)
Record module_object : Type := mkModule {
  vuln_info_attr : option (list (str * value));
  module_dir : list attribute
}.

(** What [spec_from_file_location] followed by [exec_module] gives: no spec
    or no loader, an exception raised by the plugin's top-level code, or the
    executed module. *)
Inductive import_result : Type :=
| NoSpec
| ExecRaised (e : exn)
| Executed (m : module_object).

(** The reload callback: called with a plugin id; it returns or raises. *)
Definition callback : Type := string -> option exn.

Record PluginLoader : Type := mkPluginLoader {
  _plugins : gmap string PluginInfo;
  _on_reload_callback : option callback
}.

(** What lies outside the loader: the files (path to content) and the
    arguments with which the reload callback has been called, oldest
    first. *)
Record world : Type := mkWorld {
  files : gmap string string;
  callback_calls : list string
}.

Definition new : PluginLoader := mkPluginLoader ∅ None.

Definition set_reload_callback (cb : callback) (self : PluginLoader)
  : PluginLoader :=
  mkPluginLoader (_plugins self) (Some cb).

Definition get_plugin (plugin_id : string) (self : PluginLoader)
  : option PluginInfo :=
  _plugins self !! plugin_id.

(** The first attribute of [dir(module)] that is a class with a [verify]
    attribute. *)
Fixpoint find_vuln_class (attrs : list attribute) : option string :=
  match attrs with
  | [] => None
  | a :: attrs' =>
      if is_type a && has_verify a then Some (attr_name a)
      else find_vuln_class attrs'
  end.

Section with_runtime.
(** The runtime services the loader calls: [hashlib.md5(...).hexdigest()]
    on a file's bytes, [Path.stem], and the import machinery applied to a
    module name, a path and the file's content. *)
Variable hexdigest : string -> string.
Variable stem : string -> string.
Variable exec_module : string -> string -> string -> import_result.

(** [_calculate_md5]: [open(path, "rb")] raises when there is no such
    file. *)
Definition _calculate_md5 (path : string) (w : world) : outcome string :=
  match files w !! path with
  | Some content => Return (hexdigest content)
  | None => Raise (OtherException "FileNotFoundError" path)
  end.

Definition already_loaded (plugin_id md5_now : string) (self : PluginLoader)
  : bool :=
  match _plugins self !! plugin_id with
  | Some info => String.eqb (md5 info) md5_now
  | None => false
  end.

Definition _load_vuln_plugin (path : string) (self : PluginLoader) (w : world)
  : outcome bool * PluginLoader :=
  match _calculate_md5 path w with
  | Raise e => (Raise e, self)
  | Return md5_now =>
      let plugin_id := stem path in
      if already_loaded plugin_id md5_now self then (Return false, self)
      else
        match files w !! path with
        | None => (Raise (OtherException "FileNotFoundError" path), self)
        | Some content =>
            match exec_module plugin_id path content with
            | NoSpec => (Return false, self)
            | ExecRaised e => (Raise e, self)
            | Executed module =>
                match vuln_info_attr module with
                | None => (Return false, self)
                | Some vuln_info =>
                    let plugin_info :=
                      mkPluginInfo plugin_id
                        (dict_get vuln_info (lit "name") (VStr (lit plugin_id)))
                        "vuln" path md5_now true vuln_info
                        (find_vuln_class (module_dir module)) in
                    (Return true,
                     mkPluginLoader (<[plugin_id := plugin_info]> (_plugins self))
                       (_on_reload_callback self))
                end
            end
        end
  end.

Definition reload_plugin (plugin_id : string) (self : PluginLoader) (w : world)
  : outcome bool * PluginLoader * world :=
  match _plugins self !! plugin_id with
  | None => (Return false, self, w)
  | Some plugin_info =>
      let path := file_path plugin_info in
      match files w !! path with
      | None =>
          (Return false,
           mkPluginLoader (delete plugin_id (_plugins self))
             (_on_reload_callback self),
           w)
      | Some _ =>
          match _load_vuln_plugin path self w with
          | (Return true, self') =>
              match _on_reload_callback self' with
              | Some cb =>
                  let w' := mkWorld (files w) (callback_calls w ++ [plugin_id]) in
                  match cb plugin_id with
                  | Some e => (Raise e, self', w')
                  | None => (Return true, self', w')
                  end
              | None => (Return true, self', w)
              end
          | (Return false, self') => (Return false, self', w)
          | (Raise e, self') => (Raise e, self', w)
          end
      end
  end.

(** Every registry entry sits under the stem of its own file path. *)
Definition registry_wf (self : PluginLoader) : Prop :=
  forall k info, _plugins self !! k = Some info ->
    stem (file_path info) = k /\ plugin_id info = k.

End with_runtime.

(** *** Tool plugins, load_all and the sandbox namespace *)

(** [name.startswith(prefix)] *)
Definition startswith (prefix name : string) : bool := String.prefix prefix name.

(** A loaded tool: the instance of a class of the tool's module, with the
    digest the loader stores on it as [_md5] (every instance in [_tools]
    carries one, so the [hasattr] test of the loader always holds). *)
Record tool : Type := mkTool {
  tool_class : string;
  _md5 : string
}.

(** The first attribute of [dir(module)] that is a class whose name does not
    start with an underscore. *)
Fixpoint find_tool_class (attrs : list attribute) : option string :=
  match attrs with
  | [] => None
  | a :: attrs' =>
      if is_type a && negb (startswith "_" (attr_name a))
      then Some (attr_name a)
      else find_tool_class attrs'
  end.

Definition get_tool (tool_id : string) (tools : gmap string tool)
  : option tool :=
  tools !! tool_id.

Section with_tool_runtime.
(** Besides the services of the vulnerability loader: [Path.name], and the
    construction [attr()] of a tool class without arguments, which returns
    or raises. *)
Variable hexdigest : string -> string.
Variable stem : string -> string.
Variable exec_module : string -> string -> string -> import_result.
Variable file_name : string -> string.
Variable instantiate : string -> string -> option exn.

Definition tool_already_loaded (tool_id md5_now : string)
    (tools : gmap string tool) : bool :=
  match tools !! tool_id with
  | Some t => String.eqb (_md5 t) md5_now
  | None => false
  end.

Definition _load_tool_plugin (path : string) (tools : gmap string tool)
    (w : world) : outcome bool * gmap string tool :=
  match _calculate_md5 hexdigest path w with
  | Raise e => (Raise e, tools)
  | Return md5_now =>
      let tool_id := stem path in
      if tool_already_loaded tool_id md5_now tools then (Return false, tools)
      else
        match files w !! path with
        | None => (Raise (OtherException "FileNotFoundError" path), tools)
        | Some content =>
            match exec_module tool_id path content with
            | NoSpec => (Return false, tools)
            | ExecRaised e => (Raise e, tools)
            | Executed module =>
                match find_tool_class (module_dir module) with
                | None => (Return false, tools)
                | Some cls =>
                    match instantiate tool_id cls with
                    | Some e => (Raise e, tools)
                    | None =>
                        (Return true, <[tool_id := mkTool cls md5_now]> tools)
                    end
                end
            end
        end
  end.

(** One directory walk of [load_all] over the files the glob found: a file
    whose name starts with an underscore is skipped, a load that answers
    TRUE is counted, an [Exception] from a load is logged and the walk goes
    on; anything else a load raises ends the walk. *)
Fixpoint load_each {State : Type} (load : string -> State -> outcome bool * State)
    (paths : list string) (count : nat) (st : State) : outcome nat * State :=
  match paths with
  | [] => (Return count, st)
  | py_file :: rest =>
      if startswith "_" (file_name py_file) then load_each load rest count st
      else
        match load py_file st with
        | (Return true, st') => load_each load rest (S count) st'
        | (Return false, st') => load_each load rest count st'
        | (Raise e, st') =>
            if isinstance_Exception e then load_each load rest count st'
            else (Raise e, st')
        end
  end.

(** [load_all]: [vuln_files] and [tool_files] are what the two globs find
    (nothing for a directory that does not exist). *)
Definition load_all (vuln_files tool_files : list string)
    (self : PluginLoader) (tools : gmap string tool) (w : world)
  : outcome nat * PluginLoader * gmap string tool :=
  match load_each
          (fun p s => _load_vuln_plugin hexdigest stem exec_module p s w)
          vuln_files 0 self with
  | (Raise e, self') => (Raise e, self', tools)
  | (Return count, self') =>
      let '(r, tools') :=
        load_each (fun p t => _load_tool_plugin p t w) tool_files count tools in
      (r, self', tools')
  end.

(** The files of a walk that are not skipped. *)
Definition eligible (paths : list string) : list string :=
  List.filter (fun p => negb (startswith "_" (file_name p))) paths.

(** What a load of [path] comes to when the dedupe test does not stop it:
    for a vulnerability plugin and for a tool. *)
Definition vuln_verdict (w : world) (path : string) : outcome bool :=
  match files w !! path with
  | None => Raise (OtherException "FileNotFoundError" path)
  | Some content =>
      match exec_module (stem path) path content with
      | NoSpec => Return false
      | ExecRaised e => Raise e
      | Executed module =>
          match vuln_info_attr module with
          | None => Return false
          | Some _ => Return true
          end
      end
  end.

Definition tool_verdict (w : world) (path : string) : outcome bool :=
  match files w !! path with
  | None => Raise (OtherException "FileNotFoundError" path)
  | Some content =>
      match exec_module (stem path) path content with
      | NoSpec => Return false
      | ExecRaised e => Raise e
      | Executed module =>
          match find_tool_class (module_dir module) with
          | None => Return false
          | Some cls =>
              match instantiate (stem path) cls with
              | Some e => Raise e
              | None => Return true
              end
          end
      end
  end.

(** Whether the dedupe test stops a load of [path]. *)
Definition vuln_known (w : world) (path : string) (self : PluginLoader)
  : bool :=
  match files w !! path with
  | Some content => already_loaded (stem path) (hexdigest content) self
  | None => false
  end.

Definition tool_known (w : world) (path : string) (tools : gmap string tool)
  : bool :=
  match files w !! path with
  | Some content => tool_already_loaded (stem path) (hexdigest content) tools
  | None => false
  end.

End with_tool_runtime.

(** A file is settled when loading it again loads nothing: the dedupe test
    stops it, or its load fails without ending the walk. *)
Definition settled {State : Type} (known : string -> State -> bool)
    (verdict : string -> outcome bool) (path : string) (st : State) : Prop :=
  known path st = true
  \/ (verdict path <> Return true
      /\ forall e, verdict path = Raise e -> isinstance_Exception e = true).

Section with_builtins.
(** [dir(builtins)] *)
Variable builtins_dir : list string.

(** The test of the loop: [name not in BLOCKED_BUILTINS and not
    name.startswith("_")]. *)
Definition kept_builtin (name : string) : bool :=
  negb (bool_decide (name ∈ BLOCKED_BUILTINS)) && negb (startswith "_" name).

(** [create_restricted_globals()["__builtins__"]]: each kept builtin under
    its name (the builtin object is identified with its name). *)
Definition create_restricted_globals : gmap string string :=
  foldl (fun safe_builtins name =>
           if kept_builtin name then <[name := name]> safe_builtins
           else safe_builtins)
    ∅ builtins_dir.

End with_builtins.

(** Stand-ins for the runtime, for running the loader on examples: the
    digest of a content is the content itself, the stem of a path is what
    precedes its first dot, and a file whose content is ["broken"] has no
    [__vuln_info__] while any other declares [name] and a class [X] with
    [verify]. *)
Definition demo_hexdigest (content : string) : string := content.
Definition demo_stem (path : string) : string := base_module path.
Definition demo_exec_module (plugin_id path content : string) : import_result :=
  if String.eqb content "broken"
  then Executed (mkModule None [])
  else Executed (mkModule (Some [(lit "name", VStr (lit "Test"))])
                   [mkAttribute "X" true true]).

Definition demo_world : world :=
  mkWorld {[ "test.py" := "v1" ]} [].

Definition demo_callback : callback := fun _ => None.

(** The loader after the callback was set and [test.py] was loaded once. *)
Definition demo_loader : PluginLoader :=
  snd (_load_vuln_plugin demo_hexdigest demo_stem demo_exec_module
         "test.py" (set_reload_callback demo_callback new) demo_world).

Definition demo_info : PluginInfo :=
  mkPluginInfo "test" (VStr (lit "Test")) "vuln" "test.py" "v1" true
    [(lit "name", VStr (lit "Test"))] (Some "X").

(** More examples: the file edited, the file broken, the stand-ins for
    [Path.name] and for the construction of a tool, and two files with the same stem. *)
Definition edited_world : world := mkWorld {[ "test.py" := "v2" ]} [].

Definition broken_world : world := mkWorld {[ "test.py" := "broken" ]} [].

Definition demo_file_name (path : string) : string := path.

Definition demo_instantiate (tool_id cls : string) : option exn := None.

Definition twin_world : world :=
  mkWorld {[ "test.py" := "v1"; "test.v2.py" := "v2" ]} [].

Definition twin_info : PluginInfo :=
  mkPluginInfo "test" (VStr (lit "Test")) "vuln" "test.v2.py" "v2" true
    [(lit "name", VStr (lit "Test"))] (Some "X").

Definition twin_loader : PluginLoader :=
  mkPluginLoader {[ "test" := twin_info ]} None.

End plugin_loader.

(** ** The standard library's [datetime] and [json], as far as used *)

Module datetime.

(** A naive [datetime], as [datetime.utcnow()] returns it. *)
Record datetime : Type := mkDatetime {
  year : Z;
  month : Z;
  day : Z;
  hour : Z;
  minute : Z;
  second : Z;
  microsecond : Z
}.

(** The ranges of the fields (a day is at most 31; the exact length of the
    month plays no role here). *)
Definition valid (d : datetime) : Prop :=
  (1 <= year d <= 9999 /\ 1 <= month d <= 12 /\ 1 <= day d <= 31
   /\ 0 <= hour d <= 23 /\ 0 <= minute d <= 59 /\ 0 <= second d <= 59
   /\ 0 <= microsecond d <= 999999)%Z.

Definition digit (d : Z) : ascii := ascii_of_nat (48 + Z.to_nat d).

(** [n] in decimal on exactly [width] digits, leading zeros included; this
    is ["%0{width}d"] for [0 <= n < 10 ^ width]. *)
Fixpoint zfill (width : nat) (n : Z) : string :=
  match width with
  | O => ""
  | S w => String (digit (n / 10 ^ Z.of_nat w))
             (zfill w (n mod 10 ^ Z.of_nat w))
  end.

(** [strftime("%Y-%m-%d")] *)
Definition strftime_date (d : datetime) : string :=
  zfill 4 (year d) +:+ "-" +:+ zfill 2 (month d) +:+ "-" +:+ zfill 2 (day d).

(** [isoformat()] of a naive datetime: the fraction is printed only when
    [microsecond] is not 0. *)
Definition isoformat (d : datetime) : string :=
  strftime_date d +:+ "T" +:+ zfill 2 (hour d) +:+ ":" +:+ zfill 2 (minute d)
  +:+ ":" +:+ zfill 2 (second d)
  +:+ (if (microsecond d =? 0)%Z then "" else "." +:+ zfill 6 (microsecond d)).

End datetime.

Module json.
Import py.

(** With the default [ensure_ascii=True], [json.dumps] writes every code
    point outside [' ' .. '~'], the quote and the backslash as an escape; a
    code point above U+FFFF is written as the escapes of its two UTF-16
    surrogates. *)
Definition dquote : ascii := "034"%char.

Definition hex_digits : string := "0123456789abcdef".

(** One digit of a lower-case hexadecimal numeral ([n < 16]). *)
Definition hex_digit (n : N) : ascii :=
  match String.get (N.to_nat n) hex_digits with
  | Some c => c
  | None => "f"%char
  end.

(** ['{0:04x}'.format(n)] for [n < 0x10000]: four digits. *)
Definition hex4 (n : N) : string :=
  String (hex_digit (n / 4096 mod 16))
    (String (hex_digit (n / 256 mod 16))
       (String (hex_digit (n / 16 mod 16))
          (String (hex_digit (n mod 16)) ""))).

Definition u_escape (n : N) : string := String "\" (String "u" (hex4 n)).

Definition escape_char (c : N) : string :=
  if (c =? 34)%N then String "\" (String dquote "")
  else if (c =? 92)%N then "\\"
  else if (c =? 10)%N then "\n"
  else if (c =? 13)%N then "\r"
  else if (c =? 9)%N then "\t"
  else if (c =? 8)%N then "\b"
  else if (c =? 12)%N then "\f"
  else if ((32 <=? c) && (c <=? 126))%N then String (ascii_of_N c) ""
  else if (c <? 0x10000)%N then u_escape c
  else
    let n := (c - 0x10000)%N in
    let s1 := N.lor 0xd800 (N.land (N.shiftr n 10) 0x3ff) in
    let s2 := N.lor 0xdc00 (N.land n 0x3ff) in
    u_escape s1 +:+ u_escape s2.

Fixpoint escape (s : str) : string :=
  match s with
  | [] => ""
  | c :: s' => escape_char c +:+ escape s'
  end.

Definition encode_basestring_ascii (s : str) : string :=
  String dquote (escape s +:+ String dquote "").

(** The text [json.dumps] writes with its default separators.  A tuple is
    written like a list.  [VObject] has no text; [serializable] below
    excludes it. *)
Fixpoint encode (v : value) : string :=
  match v with
  | VNone => "null"
  | VBool true => "true"
  | VBool false => "false"
  | VInt z => str_of_int z
  | VStr s => encode_basestring_ascii s
  | VList l => "[" +:+ join ", " (map encode l) +:+ "]"
  | VTuple l => "[" +:+ join ", " (map encode l) +:+ "]"
  | VDict d =>
      "{" +:+ join ", "
                (map (fun kv => encode_basestring_ascii (fst kv) +:+ ": "
                                +:+ encode (snd kv)) d)
      +:+ "}"
  | VObject _ => ""
  end.

Fixpoint serializable (v : value) : bool :=
  match v with
  | VNone | VBool _ | VInt _ | VStr _ => true
  | VList l => forallb serializable l
  | VTuple l => forallb serializable l
  | VDict d => forallb (fun kv => serializable (snd kv)) d
  | VObject _ => false
  end.

(** [json.dumps(obj)]: the text, or [TypeError] when an object that is not
    JSON serializable is met. *)
Definition dumps (obj : value) : outcome string :=
  if serializable obj then Return (encode obj)
  else Raise (OtherException "TypeError" "Object is not JSON serializable").

(** The code points of Unicode text: below 0x110000 and not a surrogate. *)
Definition scalar (c : N) : bool :=
  ((c <? 0xd800) || ((0xdfff <? c) && (c <? 0x110000)))%N.

(** A [str] that is Unicode text: it holds no surrogate code point. *)
Definition text (s : str) : bool := forallb scalar s.

(** The values that JSON has a form of its own for: no tuple and no
    foreign object anywhere inside, and every [str], keys included, is
    Unicode text. *)
Fixpoint native (v : value) : bool :=
  match v with
  | VNone | VBool _ | VInt _ => true
  | VStr s => text s
  | VList l => forallb native l
  | VTuple _ => false
  | VDict d => forallb (fun kv => text (fst kv) && native (snd kv)) d
  | VObject _ => false
  end.

(** *** Reading the text back

    What a reader of the text relies on: one scanned character of a string
    body, and the kind of value announced by the first character. *)

Fixpoint index_of (c : ascii) (s : string) : option N :=
  match s with
  | EmptyString => None
  | String d s' =>
      if Ascii.eqb c d then Some 0%N else option_map N.succ (index_of c s')
  end.

Definition hex_value (c : ascii) : option N := index_of c hex_digits.

(** Four hexadecimal digits and what follows them. *)
Definition parse_hex4 (s : string) : option (N * string) :=
  match s with
  | String a (String b (String c (String d rest))) =>
      match hex_value a, hex_value b, hex_value c, hex_value d with
      | Some x, Some y, Some z, Some t =>
          Some (4096 * x + 256 * y + 16 * z + t, rest)%N
      | _, _, _, _ => None
      end
  | _ => None
  end.

(** What follows [\u]: a code point, or a high surrogate followed by the
    escape of a low one, which together stand for a code point above
    U+FFFF. *)
Definition unescape_u (r : string) : option (N * string) :=
  match parse_hex4 r with
  | Some (uni, rest) =>
      if ((0xd800 <=? uni) && (uni <=? 0xdbff))%N
      then match rest with
           | String "\" (String "u" r2) =>
               match parse_hex4 r2 with
               | Some (uni2, rest2) =>
                   if ((0xdc00 <=? uni2) && (uni2 <=? 0xdfff))%N
                   then Some (0x10000 + (uni - 0xd800) * 1024
                              + (uni2 - 0xdc00), rest2)%N
                   else Some (uni, rest)
               | None => Some (uni, rest)
               end
           | _ => Some (uni, rest)
           end
      else Some (uni, rest)
  | None => None
  end.

(** The code point at the head of a string body and what follows it;
    [None] at the closing quote, at the end of the text and at a malformed
    escape. *)
Definition unescape_char (s : string) : option (N * string) :=
  match s with
  | EmptyString => None
  | String c rest =>
      if Ascii.eqb c dquote then None
      else if Ascii.eqb c "\" then
        match rest with
        | EmptyString => None
        | String e rest' =>
            if Ascii.eqb e dquote then Some (34%N, rest')
            else if Ascii.eqb e "\" then Some (92%N, rest')
            else if Ascii.eqb e "n" then Some (10%N, rest')
            else if Ascii.eqb e "r" then Some (13%N, rest')
            else if Ascii.eqb e "t" then Some (9%N, rest')
            else if Ascii.eqb e "b" then Some (8%N, rest')
            else if Ascii.eqb e "f" then Some (12%N, rest')
            else if Ascii.eqb e "u" then unescape_u rest'
            else None
        end
      else Some (N_of_ascii c, rest)
  end.

Definition is_digit (c : ascii) : bool :=
  ((48 <=? N_of_ascii c) && (N_of_ascii c <=? 57))%N.

(** A text that does not go on with a digit (what follows a number). *)
Definition no_digit_head (r : string) : Prop :=
  match r with
  | EmptyString => True
  | String c _ => is_digit c = false
  end.

(** The kind of value a text starts with, by its first character. *)
Definition head_kind (s : string) : N :=
  match s with
  | EmptyString => 0
  | String c _ =>
      if Ascii.eqb c "n" then 1
      else if Ascii.eqb c "t" || Ascii.eqb c "f" then 2
      else if Ascii.eqb c "-" || is_digit c then 3
      else if Ascii.eqb c dquote then 4
      else if Ascii.eqb c "[" then 5
      else if Ascii.eqb c "{" then 6
      else 0
  end%N.

Definition kind (v : value) : N :=
  match v with
  | VNone => 1
  | VBool _ => 2
  | VInt _ => 3
  | VStr _ => 4
  | VList _ => 5
  | VTuple _ => 5
  | VDict _ => 6
  | VObject _ => 0
  end%N.

(** The printable ASCII characters, [' '] to ['~']. *)
Definition printable (c : ascii) : bool :=
  ((32 <=? N_of_ascii c) && (N_of_ascii c <=? 126))%N.

Fixpoint all_printable (s : string) : bool :=
  match s with
  | EmptyString => true
  | String c s' => printable c && all_printable s'
  end.

(** An element written by [enc] is uniquely readable among the elements
    that satisfy [ok] when its text, followed by anything that is not a
    digit, determines it. *)
Definition readable {A : Type} (enc : A -> string) (ok : A -> Prop) (x : A)
  : Prop :=
  forall y r1 r2, ok y -> no_digit_head r1 -> no_digit_head r2 ->
    enc x +:+ r1 = enc y +:+ r2 -> x = y /\ r1 = r2.

End json.

(** ** scanner/security/audit_log.py *)

Module AuditEventType.
Inductive t : Type :=
| LOGIN | LOGOUT | LOGIN_FAILED
| TASK_CREATE | TASK_START | TASK_STOP | TASK_DELETE | TASK_COMPLETE | TASK_FAIL
| SCAN_START | SCAN_STOP | VULN_FOUND
| PLUGIN_LOAD | PLUGIN_RELOAD | PLUGIN_ERROR
| CONFIG_CHANGE
| SYSTEM_START | SYSTEM_STOP | ERROR
| DATA_ACCESS | DATA_EXPORT | DATA_DELETE.

Definition value (x : t) : string :=
  match x with
  | LOGIN => "login" | LOGOUT => "logout" | LOGIN_FAILED => "login_failed"
  | TASK_CREATE => "task_create" | TASK_START => "task_start"
  | TASK_STOP => "task_stop" | TASK_DELETE => "task_delete"
  | TASK_COMPLETE => "task_complete" | TASK_FAIL => "task_fail"
  | SCAN_START => "scan_start" | SCAN_STOP => "scan_stop"
  | VULN_FOUND => "vuln_found"
  | PLUGIN_LOAD => "plugin_load" | PLUGIN_RELOAD => "plugin_reload"
  | PLUGIN_ERROR => "plugin_error"
  | CONFIG_CHANGE => "config_change"
  | SYSTEM_START => "system_start" | SYSTEM_STOP => "system_stop"
  | ERROR => "error"
  | DATA_ACCESS => "data_access" | DATA_EXPORT => "data_export"
  | DATA_DELETE => "data_delete"
  end.
End AuditEventType.

Module AuditSeverity.
Inductive t : Type := INFO | WARNING | ERROR | CRITICAL.

Definition value (x : t) : string :=
  match x with
  | INFO => "info" | WARNING => "warning" | ERROR => "error"
  | CRITICAL => "critical"
  end.
End AuditSeverity.

Module audit_log.
Import py.

Record AuditEvent : Type := mkAuditEvent {
  event_type : AuditEventType.t;
  severity : AuditSeverity.t;
  message : str;
  user_id : option str;
  source_ip : option str;
  target : option str;
  details : list (str * value);
  timestamp : datetime.datetime
}.

(** A [str | None] field as a Python value. *)
Definition optional_str (o : option str) : value :=
  match o with
  | Some s => VStr s
  | None => VNone
  end.

Definition to_dict (self : AuditEvent) : value :=
  VDict [ (lit "event_type",
           VStr (lit (AuditEventType.value (event_type self))));
          (lit "severity", VStr (lit (AuditSeverity.value (severity self))));
          (lit "message", VStr (message self));
          (lit "user_id", optional_str (user_id self));
          (lit "source_ip", optional_str (source_ip self));
          (lit "target", optional_str (target self));
          (lit "details", VDict (details self));
          (lit "timestamp", VStr (lit (datetime.isoformat (timestamp self)))) ].

Definition to_json (self : AuditEvent) : outcome string :=
  json.dumps (to_dict self).

(** A [str | None] field that, when it is a [str], is Unicode text. *)
Definition optional_text (o : option str) : bool :=
  match o with
  | Some s => json.text s
  | None => true
  end.

(** An event whose [details] hold JSON-native values only, whose strings
    are Unicode text (no surrogate code point) and whose timestamp is a
    well-formed naive datetime. *)
Definition json_native (e : AuditEvent) : Prop :=
  json.native (VDict (details e)) = true
  /\ json.text (message e) = true
  /\ optional_text (user_id e) = true
  /\ optional_text (source_ip e) = true
  /\ optional_text (target e) = true
  /\ datetime.valid (timestamp e).

(** *** AuditLogger *)

(** A filter is a total, deterministic predicate on events; a sink handler
    returns ([None]) or raises. *)
Definition filter : Type := AuditEvent -> bool.
Definition handler : Type := AuditEvent -> option exn.

Record AuditLogger : Type := mkAuditLogger {
  _log_dir : string;
  _max_file_size : Z;
  _max_files : Z;
  _enable_console : bool;
  _enable_file : bool;
  _current_file : option string;
  _file_handle : option string;
  _filters : list filter;
  _handlers : list handler;
  _event_count : Z;
  _events_by_type : gmap string Z
}.

(** What the logger does to its surroundings, in order: a sink handler
    called (by position in [_handlers]), a diagnostic sent to
    [logger.error], a console line sent to [logger.log] at a level, a line
    appended to a file. *)
Inductive effect : Type :=
| SinkCalled (index : nat) (event : AuditEvent)
| Diagnostic (text : string)
| Console (level : Z) (text : str)
| Appended (path : string) (data : string).

(** The surroundings: the files of the log directory (path to content),
    the effects so far, oldest first, and the answer of the operating
    system to a request to remove a file that is there: [None] when it
    removes it, the text of the [OSError] when it refuses. *)
Record world : Type := mkWorld {
  files : gmap string string;
  trace : list effect;
  unlink_error : string -> option string
}.

Definition emit (e : effect) (w : world) : world :=
  mkWorld (files w) (trace w ++ [e]) (unlink_error w).

(** [path.unlink()]: the file is removed, or an [OSError] is raised, whose
    text is returned: the file is not there, or the operating system
    refuses. *)
Definition unlink (path : string) (w : world) : option string * world :=
  match files w !! path with
  | None =>
      (Some ("[Errno 2] No such file or directory: '" +:+ path +:+ "'"), w)
  | Some _ =>
      match unlink_error w path with
      | Some text => (Some text, w)
      | None =>
          (None, mkWorld (delete path (files w)) (trace w) (unlink_error w))
      end
  end.

Definition new (log_dir : string) (max_file_size max_files : Z)
    (enable_console enable_file : bool) : AuditLogger :=
  mkAuditLogger log_dir max_file_size max_files enable_console enable_file
    None None [] [] 0 ∅.

Definition set_file (current_file file_handle : option string)
    (self : AuditLogger) : AuditLogger :=
  mkAuditLogger (_log_dir self) (_max_file_size self) (_max_files self)
    (_enable_console self) (_enable_file self) current_file file_handle
    (_filters self) (_handlers self) (_event_count self)
    (_events_by_type self).

Definition add_filter (filter_func : filter) (self : AuditLogger)
  : AuditLogger :=
  mkAuditLogger (_log_dir self) (_max_file_size self) (_max_files self)
    (_enable_console self) (_enable_file self) (_current_file self)
    (_file_handle self) (_filters self ++ [filter_func]) (_handlers self)
    (_event_count self) (_events_by_type self).

Definition add_handler (h : handler) (self : AuditLogger) : AuditLogger :=
  mkAuditLogger (_log_dir self) (_max_file_size self) (_max_files self)
    (_enable_console self) (_enable_file self) (_current_file self)
    (_file_handle self) (_filters self) (_handlers self ++ [h])
    (_event_count self) (_events_by_type self).

(** The two statistics updates of [log]: [_event_count += 1] and
    [_events_by_type[key] = _events_by_type.get(key, 0) + 1]. *)
Definition count_event (event_key : string) (self : AuditLogger)
  : AuditLogger :=
  mkAuditLogger (_log_dir self) (_max_file_size self) (_max_files self)
    (_enable_console self) (_enable_file self) (_current_file self)
    (_file_handle self) (_filters self) (_handlers self)
    (_event_count self + 1)
    (<[event_key := (default 0 (_events_by_type self !! event_key) + 1)%Z]>
       (_events_by_type self)).

(** The filter loop: [true] when no filter answers FALSE; filters after the
    first FALSE are not called. *)
Fixpoint apply_filters (filters : list filter) (event : AuditEvent) : bool :=
  match filters with
  | [] => true
  | filter_func :: rest =>
      if negb (filter_func event) then false else apply_filters rest event
  end.

(** The handler loop: an [Exception] from a handler is reported and the
    loop goes on; anything else a handler raises leaves the loop. *)
Fixpoint call_handlers (index : nat) (handlers : list handler)
    (event : AuditEvent) (w : world) : option exn * world :=
  match handlers with
  | [] => (None, w)
  | h :: rest =>
      let w := emit (SinkCalled index event) w in
      match h event with
      | None => call_handlers (S index) rest event w
      | Some e =>
          if isinstance_Exception e
          then call_handlers (S index) rest event
                 (emit (Diagnostic ("Audit handler error: " +:+ exn_str e)) w)
          else (Some e, w)
      end
  end.

(** [logging.INFO], [WARNING], [ERROR], [CRITICAL] *)
Definition severity_level (s : AuditSeverity.t) : Z :=
  match s with
  | AuditSeverity.INFO => 20
  | AuditSeverity.WARNING => 30
  | AuditSeverity.ERROR => 40
  | AuditSeverity.CRITICAL => 50
  end.

Definition _write_console (event : AuditEvent) (w : world) : world :=
  emit (Console (severity_level (severity event))
          (lit ("[AUDIT] " +:+ AuditEventType.value (event_type event)
                +:+ ": ") ++ message event)) w.

Section with_directory.
(** [sorted(log_dir.glob("audit-*.log"), key=mtime, reverse=True)]: the
    audit files of a directory, most recently modified first, as the
    operating system reports them. *)
Variable newest_first : string -> gmap string string -> list string.

(** One round of the clean-up loop: an [OSError] from [unlink] is
    reported and the loop goes on. *)
Definition remove_old_file (w : world) (old_file : string) : world :=
  match unlink old_file w with
  | (None, w) => w
  | (Some text, w) =>
      emit (Diagnostic ("Failed to delete old audit log: " +:+ text)) w
  end.

Definition _cleanup_old_files (self : AuditLogger) (w : world) : world :=
  if negb (_enable_file self) then w
  else
    let log_files := newest_first (_log_dir self) (files w) in
    foldl remove_old_file w (slice_from (_max_files self) log_files).

(** [_rotate_if_needed] at a wall-clock reading [now].  Opening a file in
    append mode creates it when it is missing and is taken to succeed. *)
Definition _rotate_if_needed (now : datetime.datetime) (self : AuditLogger)
    (w : world) : AuditLogger * world :=
  if negb (_enable_file self) then (self, w)
  else
    let today := datetime.strftime_date now in
    let log_file := _log_dir self +:+ "/audit-" +:+ today +:+ ".log" in
    let should_rotate :=
      if negb (bool_decide (_current_file self = Some log_file)) then true
      else match files w !! log_file with
           | Some content =>
               (_max_file_size self <=? Z.of_nat (String.length content))%Z
           | None => false
           end in
    if should_rotate
    then
      let self := set_file (Some log_file) (Some log_file) self in
      let w := mkWorld (match files w !! log_file with
                        | Some _ => files w
                        | None => <[log_file := ""]> (files w)
                        end) (trace w) (unlink_error w) in
      (self, _cleanup_old_files self w)
    else (self, w).

(** [_write_file]: a write through a handle whose file the clean-up has
    unlinked does not bring the file back. *)
Definition _write_file (now : datetime.datetime) (line : string)
    (self : AuditLogger) (w : world) : AuditLogger * world :=
  let '(self, w) := _rotate_if_needed now self w in
  match _file_handle self with
  | Some path =>
      let data := line +:+ String "010" "" in
      (self,
       emit (Appended path data)
         (mkWorld (match files w !! path with
                   | Some content => <[path := content +:+ data]> (files w)
                   | None => files w
                   end)
            (trace w) (unlink_error w)))
  | None => (self, w)
  end.

Definition _write_event (now : datetime.datetime) (event : AuditEvent)
    (self : AuditLogger) (w : world) : outcome unit * AuditLogger * world :=
  match to_json event with
  | Raise e => (Raise e, self, w)
  | Return log_line =>
      let w := if _enable_console self then _write_console event w else w in
      if _enable_file self
      then let '(self, w) := _write_file now log_line self w in
           (Return tt, self, w)
      else (Return tt, self, w)
  end.

Definition initialize (now : datetime.datetime) (self : AuditLogger)
    (w : world) : AuditLogger * world :=
  if _enable_file self then _rotate_if_needed now self w else (self, w).

(** [log]: [created] is the wall-clock reading stored in the event,
    [written] the one taken by the rotation check. *)
Definition log (created written : datetime.datetime)
    (event_type : AuditEventType.t) (message : str)
    (severity : AuditSeverity.t) (user_id source_ip target : option str)
    (details : option (list (str * value)))
    (self : AuditLogger) (w : world) : outcome unit * AuditLogger * world :=
  let event :=
    mkAuditEvent event_type severity message user_id source_ip target
      (default [] details) created in
  if negb (apply_filters (_filters self) event) then (Return tt, self, w)
  else
    let self := count_event (AuditEventType.value event_type) self in
    match call_handlers 0 (_handlers self) event w with
    | (Some e, w) => (Raise e, self, w)
    | (None, w) => _write_event written event self w
    end.

Definition close (self : AuditLogger) : AuditLogger :=
  set_file (_current_file self) None self.

(** [get_stats()] *)
Record stats : Type := mkStats {
  total_events : Z;
  events_by_type : gmap string Z;
  log_dir : string;
  current_file : option string
}.

Definition get_stats (self : AuditLogger) : stats :=
  mkStats (_event_count self) (_events_by_type self) (_log_dir self)
    (_current_file self).

(** The two counters of a logger. *)
Definition counters (self : AuditLogger) : Z * gmap string Z :=
  (_event_count self, _events_by_type self).

(** The path [_rotate_if_needed] computes for the day of [now]. *)
Definition log_file_for (self : AuditLogger) (now : datetime.datetime)
  : string :=
  _log_dir self +:+ "/audit-" +:+ datetime.strftime_date now +:+ ".log".

(** The positions of the sink handlers called, in the order of a trace. *)
Fixpoint sink_indices (tr : list effect) : list nat :=
  match tr with
  | [] => []
  | SinkCalled i _ :: tr' => i :: sink_indices tr'
  | _ :: tr' => sink_indices tr'
  end.

(** What a round of the clean-up loop reports for a file. *)
Definition unlink_report (w : world) (path : string) : list effect :=
  match fst (unlink path w) with
  | None => []
  | Some text => [Diagnostic ("Failed to delete old audit log: " +:+ text)]
  end.

(** The lines appended to files, in the order of a trace. *)
Fixpoint appended (tr : list effect) : list (string * string) :=
  match tr with
  | [] => []
  | Appended path data :: tr' => (path, data) :: appended tr'
  | _ :: tr' => appended tr'
  end.

(** The open handle, when there is one, is on the current file. *)
Definition handle_on_current (self : AuditLogger) : Prop :=
  _file_handle self = None \/ _file_handle self = _current_file self.

(** What file output amounts to: the files, the lines appended, the handle
    and the current file. *)
Definition file_side (self : AuditLogger) (w : world)
  : gmap string string * list (string * string) * option string
    * option string :=
  (files w, appended (trace w), _file_handle self, _current_file self).

(** The sum of the per-type counters. *)
Definition sum_by_type (m : gmap string Z) : Z :=
  map_fold (fun _ n acc => (n + acc)%Z) 0%Z m.

(** The calls a client makes on a logger. *)
Inductive call : Type :=
| Log (created written : datetime.datetime) (event_type : AuditEventType.t)
      (message : str) (severity : AuditSeverity.t)
      (user_id source_ip target : option str)
      (details : option (list (str * value)))
| AddFilter (f : filter)
| AddHandler (h : handler)
| Initialize (now : datetime.datetime)
| Close.

Definition perform (c : call) (self : AuditLogger) (w : world)
  : AuditLogger * world :=
  match c with
  | Log created written ty msg sev uid ip tgt det =>
      let '(_, self, w) := log created written ty msg sev uid ip tgt det self w in
      (self, w)
  | AddFilter f => (add_filter f self, w)
  | AddHandler h => (add_handler h self, w)
  | Initialize now => initialize now self w
  | Close => (close self, w)
  end.

Fixpoint perform_all (calls : list call) (self : AuditLogger) (w : world)
  : AuditLogger * world :=
  match calls with
  | [] => (self, w)
  | c :: rest => let '(self, w) := perform c self w in perform_all rest self w
  end.

(** The event a [log] call builds. *)
Definition event_of (c : call) : option AuditEvent :=
  match c with
  | Log created _ ty msg sev uid ip tgt det =>
      Some (mkAuditEvent ty sev msg uid ip tgt (default [] det) created)
  | _ => None
  end.

(** Whether a call is a [log] call in which no filter registered at that
    moment answers FALSE. *)
Definition passes (c : call) (self : AuditLogger) : bool :=
  match event_of c with
  | Some event => forallb (fun f => f event) (_filters self)
  | None => false
  end.

(** The number of such calls in a sequence started on [self]. *)
Fixpoint passed (calls : list call) (self : AuditLogger) (w : world) : nat :=
  match calls with
  | [] => O
  | c :: rest =>
      let '(self', w') := perform c self w in
      ((if passes c self then 1 else 0) + passed rest self' w')%nat
  end.

End with_directory.

(** Examples: a directory listing in key order, a filter that drops INFO
    events, a handler that raises, and a short session. *)
Definition demo_newest_first (dir : string) (fs : gmap string string)
  : list string :=
  map fst (map_to_list fs).

Definition drop_info : filter :=
  fun e => negb (bool_decide (AuditSeverity.value (severity e) = "info")).

Definition failing_sink : handler :=
  fun _ => Some (OtherException "RuntimeError" "sink down").

Definition noon : datetime.datetime := datetime.mkDatetime 2024 1 5 12 0 0 0.

Definition demo_session : list call :=
  [ AddHandler failing_sink;
    Log noon noon AuditEventType.LOGIN (lit "first") AuditSeverity.INFO
        (Some (lit "user123")) None None None;
    AddFilter drop_info;
    Log noon noon AuditEventType.LOGIN (lit "second") AuditSeverity.INFO
        None None None None;
    Log noon noon AuditEventType.ERROR (lit "third") AuditSeverity.ERROR
        None None None (Some [(lit "code", VInt 7)]) ].

Definition demo_logger : AuditLogger := new "logs/audit" 10485760 10 true true.

Definition empty_world : world := mkWorld ∅ [] (fun _ => None).

(** The logger and its surroundings after one event was written, and a
    directory of three daily files, of which the oldest cannot be removed,
    with a logger that keeps one. *)
Definition logged_once_world : AuditLogger * world :=
  perform_all demo_newest_first
    [Log noon noon AuditEventType.LOGIN (lit "first") AuditSeverity.INFO
       None None None None] demo_logger empty_world.

Definition logged_once : AuditLogger := fst logged_once_world.

Definition three_days : world :=
  mkWorld {[ "logs/audit/audit-2024-01-05.log" := "a";
             "logs/audit/audit-2024-01-06.log" := "b";
             "logs/audit/audit-2024-01-07.log" := "c" ]} []
    (fun path =>
       if String.eqb path "logs/audit/audit-2024-01-05.log"
       then Some "[Errno 13] Permission denied" else None).

Definition keep_one : AuditLogger := new "logs/audit" 10485760 1 true true.

(** Two events that differ only in the Python type of one detail: a tuple
    in the first, the list of the same items in the second; and an event
    carrying an object [json] has no form for. *)
Definition tuple_event : AuditEvent :=
  mkAuditEvent AuditEventType.SCAN_START AuditSeverity.INFO (lit "scan")
    None None (Some (lit "10.0.0.1"))
    [(lit "ports", VTuple [VInt 80; VInt 443])] noon.

Definition list_event : AuditEvent :=
  mkAuditEvent AuditEventType.SCAN_START AuditSeverity.INFO (lit "scan")
    None None (Some (lit "10.0.0.1"))
    [(lit "ports", VList [VInt 80; VInt 443])] noon.

Definition set_event : AuditEvent :=
  mkAuditEvent AuditEventType.SCAN_START AuditSeverity.INFO (lit "scan")
    None None None [(lit "ports", VObject "{80, 443}")] noon.

(** Two events that differ in one character of the message: U+00E9 in the
    first, U+1F600 in the second; and the second with the two surrogate
    code points U+D83D U+DE00 in the place of U+1F600. *)
Definition accent_event : AuditEvent :=
  mkAuditEvent AuditEventType.SCAN_START AuditSeverity.INFO
    (lit "scan " ++ [0xe9%N]) None None None [] noon.

Definition emoji_event : AuditEvent :=
  mkAuditEvent AuditEventType.SCAN_START AuditSeverity.INFO
    (lit "scan " ++ [0x1f600%N]) None None None [] noon.

Definition surrogates_event : AuditEvent :=
  mkAuditEvent AuditEventType.SCAN_START AuditSeverity.INFO
    (lit "scan " ++ [0xd83d%N; 0xde00%N]) None None None [] noon.

End audit_log.

(* ===================================================================== *)
(** * Part II: properties                                                 *)
(* ===================================================================== *)

Module string_props.

Lemma append_nil_l (t : string) : "" +:+ t = t.
Proof. reflexivity. Qed.

Lemma append_cons_l (c : ascii) (s t : string) :
  String c s +:+ t = String c (s +:+ t).
Proof. reflexivity. Qed.

Lemma append_nil_r (s : string) : s +:+ "" = s.
Proof.
  induction s as [| c s IH]; [reflexivity |].
  rewrite append_cons_l, IH. reflexivity.
Qed.

Lemma append_assoc (s t u : string) : (s +:+ t) +:+ u = s +:+ (t +:+ u).
Proof.
  induction s as [| c s IH]; [reflexivity |].
  rewrite !append_cons_l, IH. reflexivity.
Qed.

Lemma append_inv_head (s r1 r2 : string) : s +:+ r1 = s +:+ r2 -> r1 = r2.
Proof.
  induction s as [| c s IH]; [trivial |].
  rewrite !append_cons_l. intros [= H]. exact (IH H).
Qed.

End string_props.

Module circuit_breaker_props.
Import py circuit_breaker.

Lemma can_execute_closed now self :
  _state self = CLOSED -> can_execute now self = (true, self).
Proof. unfold can_execute. intros ->. reflexivity. Qed.

Lemma can_execute_denied_unchanged now self :
  fst (can_execute now self) = false -> snd (can_execute now self) = self.
Proof.
  unfold can_execute.
  destruct (_state self); simpl; try discriminate.
  destruct (Qle_bool _ _); simpl; [discriminate | reflexivity].
Qed.

Lemma half_open_one_success_shape :
  half_open_one_success = mkCircuitBreaker "default" 1 0 3 HALF_OPEN 0 1 0.
Proof. reflexivity. Qed.

(** C1, as stated, fails: from HALF_OPEN with [success_count = 1], recorded
    at clock reading 5, the failure re-opens the breaker and stores the
    reading, but [success_count] is still 1 afterwards. *)
Lemma record_failure_half_open_counterexample :
  ~ (_state (record_failure 5 half_open_one_success) = OPEN
     /\ _success_count (record_failure 5 half_open_one_success) = 0%Z
     /\ _last_failure_time (record_failure 5 half_open_one_success) = 5%Q).
Proof. intros (_ & H & _). vm_compute in H. discriminate H. Qed.

(** What one operation does to the success counter of an OPEN breaker: it
    is left alone when the breaker stays OPEN and is 0 when it does not. *)
Lemma open_step_success_count (o : op) (cb : CircuitBreaker) :
  _state cb = OPEN ->
  (_state (step cb o) = OPEN -> _success_count (step cb o) = _success_count cb)
  /\ (_state (step cb o) <> OPEN -> _success_count (step cb o) = 0%Z).
Proof.
  intros Ho. destruct o as [t | | t |]; cbn [step].
  - unfold can_execute. rewrite Ho. simpl.
    destruct (Qle_bool _ _); simpl; split; intros H;
      first [reflexivity | discriminate H | congruence].
  - unfold record_success. simpl. rewrite Ho. simpl.
    split; intros H; [reflexivity | congruence].
  - unfold record_failure. simpl. rewrite Ho. simpl.
    split; intros H; [reflexivity | congruence].
  - split; intros H; [discriminate H | reflexivity].
Qed.

Lemma stays_open_success_count (ops : list op) :
  forall cb : CircuitBreaker,
    _state cb = OPEN -> stays_open ops cb ->
    _state (run_ops ops cb) = OPEN
    /\ _success_count (run_ops ops cb) = _success_count cb.
Proof.
  induction ops as [| o ops IH]; intros cb Ho Hs; [split; [exact Ho | reflexivity] |].
  destruct Hs as [H1 Hs]. cbn [run_ops foldl].
  destruct (IH (step cb o) H1 Hs) as [I1 I2]. split; [exact I1 |].
  unfold run_ops in I2. rewrite I2.
  exact (proj1 (open_step_success_count o cb Ho) H1).
Qed.

(** C1 (amended): for every breaker in HALF_OPEN, one [record_failure] at
    clock reading [now] moves it to OPEN and sets [last_failure_time] to
    [now]; both counters, the thresholds and the name are left as they
    were.  [success_count] then keeps its value for as long as the breaker
    stays OPEN, whatever is called, and is 0 after the call that takes the
    breaker out of OPEN: a [can_execute] that admits it into HALF_OPEN once
    [recovery_timeout] has gone by, or [reset]. *)
Theorem record_failure_half_open (now : Q) (self : CircuitBreaker) :
  _state self = HALF_OPEN ->
  record_failure now self =
    mkCircuitBreaker (name self) (failure_threshold self)
      (recovery_timeout self) (success_threshold self)
      OPEN (_failure_count self) (_success_count self) now
  /\ (forall later : Q,
       (recovery_timeout self <= later - now)%Q ->
       _state (snd (can_execute later (record_failure now self))) = HALF_OPEN
       /\ _success_count (snd (can_execute later (record_failure now self))) = 0%Z)
  /\ (_state (reset (record_failure now self)) = CLOSED
      /\ _success_count (reset (record_failure now self)) = 0%Z)
  /\ (forall (ops : list op) (o : op),
        stays_open ops (record_failure now self) ->
        let cb := run_ops ops (record_failure now self) in
        _state cb = OPEN
        /\ _success_count cb = _success_count self
        /\ (_state (step cb o) = OPEN ->
            _success_count (step cb o) = _success_count self)
        /\ (_state (step cb o) <> OPEN -> _success_count (step cb o) = 0%Z)).
Proof.
  intros Hs.
  assert (E : record_failure now self =
              mkCircuitBreaker (name self) (failure_threshold self)
                (recovery_timeout self) (success_threshold self)
                OPEN (_failure_count self) (_success_count self) now).
  { unfold record_failure. simpl. rewrite Hs. reflexivity. }
  assert (Ho : _state (record_failure now self) = OPEN)
    by (rewrite E; reflexivity).
  assert (Hc : _success_count (record_failure now self) = _success_count self)
    by (rewrite E; reflexivity).
  split; [exact E |]. split; [| split].
  - intros later Hle. rewrite E. unfold can_execute. simpl.
    apply Qle_bool_iff in Hle. rewrite Hle. simpl. split; reflexivity.
  - split; reflexivity.
  - intros ops o Hst cb.
    destruct (stays_open_success_count ops _ Ho Hst) as [H1 H2].
    fold cb in H1, H2. rewrite Hc in H2.
    destruct (open_step_success_count o cb H1) as [K1 K2].
    split; [exact H1 |]. split; [exact H2 |]. split.
    + intros H. rewrite (K1 H). exact H2.
    + exact K2.
Qed.

Lemma record_failure_half_open_witness :
  record_failure 5 half_open_one_success =
    mkCircuitBreaker "default" 1 0 3 OPEN 0 1 5
  /\ _success_count
       (run_ops [RecordSuccess; RecordFailure 6]
          (record_failure 5 half_open_one_success)) = 1%Z.
Proof.
  destruct (record_failure_half_open 5 half_open_one_success eq_refl)
    as (H1 & _ & _ & H4).
  split; [exact H1 |].
  refine (proj1 (proj2 (H4 [RecordSuccess; RecordFailure 6] Reset _))).
  simpl. split; [reflexivity |]. split; [reflexivity | exact I].
Defined.

(** C2: in state OPEN, [can_execute] at clock reading [now] answers FALSE
    and changes nothing while [now - last_failure_time < recovery_timeout];
    once [now - last_failure_time >= recovery_timeout] the same call answers
    TRUE and leaves the breaker in HALF_OPEN. *)
Theorem can_execute_open (now : Q) (self : CircuitBreaker) :
  _state self = OPEN ->
  ((now - _last_failure_time self < recovery_timeout self)%Q ->
     can_execute now self = (false, self))
  /\ ((recovery_timeout self <= now - _last_failure_time self)%Q ->
     can_execute now self = (true, _transition_to HALF_OPEN self)
     /\ _state (snd (can_execute now self)) = HALF_OPEN).
Proof.
  intros Hs. unfold can_execute. rewrite Hs. split.
  - intros Hlt.
    destruct (Qle_bool (recovery_timeout self) (now - _last_failure_time self))
      eqn:E; [| reflexivity].
    apply Qle_bool_iff in E. exfalso. apply (Qlt_not_le _ _ Hlt E).
  - intros Hle. apply Qle_bool_iff in Hle. rewrite Hle. split; reflexivity.
Qed.

Lemma can_execute_open_witness :
  can_execute 20 open_at_5 = (false, open_at_5)
  /\ can_execute 35 open_at_5 =
       (true, mkCircuitBreaker "default" 5 30 3 HALF_OPEN 5 0 5).
Proof.
  split.
  - apply (proj1 (can_execute_open 20 open_at_5 eq_refl)). reflexivity.
  - apply (proj2 (can_execute_open 35 open_at_5 eq_refl)). discriminate.
Defined.



End circuit_breaker_props.

Module circuit_breaker_more.
Import py circuit_breaker.

Lemma step_settings (o : op) (self : CircuitBreaker) :
  failure_threshold (step self o) = failure_threshold self
  /\ success_threshold (step self o) = success_threshold self
  /\ recovery_timeout (step self o) = recovery_timeout self
  /\ name (step self o) = name self.
Proof.
  destruct o as [now | | now |]; simpl.
  - unfold can_execute. destruct (_state self); simpl; auto.
    destruct (Qle_bool _ _); simpl; auto.
  - unfold record_success. simpl. destruct (_state self); simpl; auto.
    destruct (_ <=? _)%Z; simpl; auto.
  - unfold record_failure. simpl. destruct (_state self); simpl; auto.
    destruct (_ <=? _)%Z; simpl; auto.
  - repeat split.
Qed.

Lemma step_consistent (o : op) (self : CircuitBreaker) :
  (0 < failure_threshold self)%Z -> (0 < success_threshold self)%Z ->
  consistent self -> consistent (step self o).
Proof.
  intros Hft Hst (Hf & Hs & Hc & Hh). unfold consistent.
  destruct o as [now | | now |]; simpl.
  - unfold can_execute. destruct (_state self) eqn:E; simpl.
    + rewrite E. repeat split; auto; intros; congruence.
    + destruct (Qle_bool _ _); simpl; rewrite ?E;
        repeat split; auto; try lia; intros; congruence.
    + rewrite E. repeat split; auto; intros; congruence.
  - unfold record_success. simpl. destruct (_state self) eqn:E; simpl.
    + rewrite E. repeat split; auto; try lia; intros; congruence.
    + rewrite E. repeat split; auto; try lia; intros; congruence.
    + destruct (Z.leb_spec (success_threshold self) (_success_count self + 1));
        simpl; rewrite ?E; repeat split; auto; try lia; intros; congruence.
  - unfold record_failure. simpl. destruct (_state self) eqn:E; simpl.
    + destruct (Z.leb_spec (failure_threshold self) (_failure_count self + 1));
        simpl; rewrite ?E; repeat split; auto; try lia; intros; congruence.
    + rewrite E. repeat split; auto; intros; congruence.
    + repeat split; auto; intros; congruence.
  - repeat split; auto; try lia; intros; congruence.
Qed.

(** X1: for positive thresholds, after any sequence of [can_execute],
    [record_success], [record_failure] and [reset] calls on a new breaker,
    the thresholds are the ones it was built with, both counters are
    non-negative, a CLOSED breaker has fewer failures on record than
    [failure_threshold] and a HALF_OPEN one fewer successes than
    [success_threshold]. *)
Theorem closed_below_threshold (nm : string) (ft : Z) (rt : Q) (st : Z)
    (ops : list op) :
  (0 < ft)%Z -> (0 < st)%Z ->
  let cb := run_ops ops (new nm ft rt st) in
  failure_threshold cb = ft /\ success_threshold cb = st
  /\ (0 <= _failure_count cb)%Z /\ (0 <= _success_count cb)%Z
  /\ (_state cb = CLOSED -> (_failure_count cb < ft)%Z)
  /\ (_state cb = HALF_OPEN -> (_success_count cb < st)%Z).
Proof.
  intros Hft Hst. simpl.
  assert (G : forall self, failure_threshold self = ft ->
                success_threshold self = st -> consistent self ->
                failure_threshold (run_ops ops self) = ft
                /\ success_threshold (run_ops ops self) = st
                /\ consistent (run_ops ops self)).
  { unfold run_ops. induction ops as [| o ops IH]; intros self E1 E2 Hc; simpl.
    - auto.
    - destruct (step_settings o self) as (S1 & S2 & _).
      apply IH; [congruence | congruence |].
      apply step_consistent; [lia | lia | exact Hc]. }
  destruct (G (new nm ft rt st)) as (E1 & E2 & Hf & Hs & Hc & Hh);
    [reflexivity | reflexivity | |].
  - unfold consistent. simpl. repeat split; try lia; intros; congruence.
  - rewrite E1 in Hc. rewrite E2 in Hh. repeat split; assumption.
Qed.

Lemma record_failure_closed (now : Q) (self : CircuitBreaker) :
  _state self = CLOSED ->
  record_failure now self =
    mkCircuitBreaker (name self) (failure_threshold self)
      (recovery_timeout self) (success_threshold self)
      (if (failure_threshold self <=? _failure_count self + 1)%Z
       then OPEN else CLOSED)
      (_failure_count self + 1) (_success_count self) now.
Proof.
  intros E. unfold record_failure. simpl. rewrite E. simpl.
  destruct (_ <=? _)%Z; [reflexivity |].
  unfold set_failure_count. simpl. rewrite E. reflexivity.
Qed.

Lemma record_failure_open (now : Q) (self : CircuitBreaker) :
  _state self = OPEN ->
  record_failure now self = set_last_failure_time now self.
Proof. intros E. unfold record_failure. simpl. rewrite E. reflexivity. Qed.

Lemma last_cons_default {A : Type} (l : list A) :
  forall x d1 d2, List.last (x :: l) d1 = List.last (x :: l) d2.
Proof.
  induction l as [| y l IH]; intros x d1 d2; [reflexivity |].
  change (List.last (y :: l) d1 = List.last (y :: l) d2). apply IH.
Qed.

Lemma last_cons_step {A : Type} (l : list A) (x d : A) :
  List.last (x :: l) d = List.last l x.
Proof.
  destruct l as [| y l]; [reflexivity |].
  change (List.last (y :: l) d = List.last (y :: l) x). apply last_cons_default.
Qed.

Lemma record_failures_open (times : list Q) :
  forall self, _state self = OPEN ->
    _state (record_failures times self) = OPEN
    /\ _failure_count (record_failures times self) = _failure_count self
    /\ _last_failure_time (record_failures times self)
       = List.last times (_last_failure_time self).
Proof.
  unfold record_failures.
  induction times as [| t times IH]; intros self E; simpl; [auto |].
  rewrite (record_failure_open t self E).
  destruct (IH (set_last_failure_time t self) E) as (H1 & H2 & H3).
  rewrite H1, H2, H3. repeat split.
  exact (eq_sym (last_cons_step times t (_last_failure_time self))).
Qed.

(** X2: failures recorded in a row on a CLOSED breaker with [c] failures
    on record leave it CLOSED with [c + k] failures as long as
    [c + k < failure_threshold], and OPEN from the failure that reaches the
    threshold on, with the count stopped at the threshold and
    [last_failure_time] at the reading of the last failure. *)
Theorem failures_open_at_threshold (times : list Q) :
  forall self : CircuitBreaker,
    _state self = CLOSED ->
    (_failure_count self < failure_threshold self)%Z ->
    let k := Z.of_nat (length times) in
    let cb := record_failures times self in
    ((_failure_count self + k < failure_threshold self)%Z ->
       _state cb = CLOSED /\ _failure_count cb = (_failure_count self + k)%Z)
    /\ ((failure_threshold self <= _failure_count self + k)%Z ->
       _state cb = OPEN /\ _failure_count cb = failure_threshold self
       /\ _last_failure_time cb = List.last times (_last_failure_time self)).
Proof.
  induction times as [| t times IH]; intros self E Hlt; simpl.
  - split; [intros _; split; [exact E | lia] | lia].
  - pose proof (record_failure_closed t self E) as Hstep.
    change (record_failures (t :: times) self)
      with (record_failures times (record_failure t self)).
    destruct (Z.leb_spec (failure_threshold self) (_failure_count self + 1))
      as [Hopen | Hclosed].
    + assert (Eo : _state (record_failure t self) = OPEN)
        by (rewrite Hstep; reflexivity).
      destruct (record_failures_open times _ Eo) as (H1 & H2 & H3).
      rewrite H1, H2, H3, Hstep. simpl.
      split; [lia |]. intros _. repeat split; [lia |].
      exact (eq_sym (last_cons_step times t (_last_failure_time self))).
    + assert (Ec : _state (record_failure t self) = CLOSED)
        by (rewrite Hstep; reflexivity).
      assert (Hc : _failure_count (record_failure t self)
                   = (_failure_count self + 1)%Z) by (rewrite Hstep; reflexivity).
      assert (Hf : failure_threshold (record_failure t self)
                   = failure_threshold self) by (rewrite Hstep; reflexivity).
      assert (Hl : _last_failure_time (record_failure t self) = t)
        by (rewrite Hstep; reflexivity).
      assert (Hlt' : (_failure_count (record_failure t self)
                      < failure_threshold (record_failure t self))%Z)
        by (rewrite Hc, Hf; lia).
      destruct (IH (record_failure t self) Ec Hlt') as [I1 I2].
      rewrite Hc, Hf in I1. rewrite Hc, Hf, Hl in I2. split.
      * intros H. destruct I1 as [J1 J2]; [lia |]. split; [exact J1 | lia].
      * intros H. destruct I2 as (J1 & J2 & J3); [lia |].
        repeat split; try assumption. rewrite J3.
        exact (eq_sym (last_cons_step times t (_last_failure_time self))).
Qed.

Lemma record_success_closed (self : CircuitBreaker) :
  _state self = CLOSED ->
  record_success self = set_failure_count 0 self.
Proof. intros E. unfold record_success. simpl. rewrite E. reflexivity. Qed.

(** X3: successes recorded in a row on a HALF_OPEN breaker with [s]
    successes on record leave it HALF_OPEN with [s + k] as long as
    [s + k < success_threshold], and CLOSED with both counters at 0 from
    the success that reaches the threshold on. *)
Theorem successes_close_at_threshold (k : nat) :
  forall self : CircuitBreaker,
    _state self = HALF_OPEN ->
    (_success_count self < success_threshold self)%Z ->
    let cb := record_successes k self in
    ((_success_count self + Z.of_nat k < success_threshold self)%Z ->
       _state cb = HALF_OPEN
       /\ _success_count cb = (_success_count self + Z.of_nat k)%Z)
    /\ ((success_threshold self <= _success_count self + Z.of_nat k)%Z ->
       _state cb = CLOSED /\ _failure_count cb = 0%Z /\ _success_count cb = 0%Z).
Proof.
  induction k as [| k IH]; intros self E Hlt; simpl.
  - split; [intros _; split; [exact E | lia] | lia].
  - destruct (IH self E Hlt) as [I1 I2]. simpl in I1, I2.
    set (cb := record_successes k self) in *.
    change (Nat.iter k record_success self) with cb.
    assert (Hst : success_threshold cb = success_threshold self).
    { subst cb. clear. induction k as [| k IHk]; [reflexivity |].
      simpl. rewrite <- IHk. unfold record_successes.
      set (c := Nat.iter k record_success self).
      unfold record_success. simpl. destruct (_state c); simpl; auto.
      destruct (_ <=? _)%Z; reflexivity. }
    split.
    + intros H. destruct I1 as [J1 J2]; [lia |].
      unfold record_success. simpl. rewrite J1. simpl. rewrite J2, Hst.
      destruct (Z.leb_spec (success_threshold self)
                  (_success_count self + Z.of_nat k + 1)); [lia |].
      simpl. split; [exact J1 | lia].
    + intros H.
      destruct (Z.lt_ge_cases (_success_count self + Z.of_nat k)
                  (success_threshold self)) as [Hb | Hb].
      * destruct I1 as [J1 J2]; [lia |].
        unfold record_success. simpl. rewrite J1. simpl. rewrite J2, Hst.
        destruct (Z.leb_spec (success_threshold self)
                    (_success_count self + Z.of_nat k + 1)); [| lia].
        repeat split.
      * destruct I2 as (J1 & J2 & J3); [lia |].
        rewrite (record_success_closed cb J1). simpl.
        repeat split; assumption.
Qed.

(** X4: once [can_execute] has admitted a request, it admits again at any
    clock reading, without changing the breaker, until some other method
    is called: HALF_OPEN puts no limit on the number of probes. *)
Theorem admission_is_stable (now later : Q) (self : CircuitBreaker) :
  fst (can_execute now self) = true ->
  can_execute later (snd (can_execute now self))
  = (true, snd (can_execute now self)).
Proof.
  unfold can_execute. destruct (_state self) eqn:E; simpl.
  - rewrite E. reflexivity.
  - destruct (Qle_bool _ _); simpl; [reflexivity | discriminate].
  - rewrite E. reflexivity.
Qed.

(** X5: the registry creates a breaker on the first [get] of a name and
    from then on returns that breaker whatever keyword arguments later
    calls pass, also after breakers of other names were created. *)
Theorem registry_first_creation_wins (nm other : string) (kw1 kw2 kw3 : kwargs)
    (breakers : gmap string CircuitBreaker) :
  breakers !! nm = None -> other <> nm ->
  let r1 := get nm kw1 breakers in
  let r2 := get other kw3 (snd r1) in
  fst r1 = construct nm kw1
  /\ get nm kw2 (snd r1) = r1
  /\ snd r2 !! nm = Some (construct nm kw1)
  /\ fst (get nm kw2 (snd r2)) = construct nm kw1.
Proof.
  intros Hnone Hne. unfold get. rewrite Hnone. simpl.
  rewrite lookup_insert_eq. simpl.
  rewrite (lookup_insert_ne _ nm other) by congruence.
  split; [reflexivity |]. split; [reflexivity |].
  destruct (breakers !! other) as [cb |]; simpl.
  - rewrite lookup_insert_eq. split; reflexivity.
  - rewrite lookup_insert_ne by exact Hne. rewrite lookup_insert_eq.
    split; reflexivity.
Qed.

Lemma closed_below_threshold_witness :
  _state (run_ops demo_ops (new "probe" 2 30 1)) = OPEN
  /\ (0 <= _failure_count (run_ops demo_ops (new "probe" 2 30 1)))%Z.
Proof.
  split; [reflexivity |].
  apply (closed_below_threshold "probe" 2 30 1 demo_ops); reflexivity.
Defined.

Lemma failures_open_at_threshold_witness :
  _state (record_failures demo_times (new "probe" 2 30 1)) = OPEN
  /\ _failure_count (record_failures demo_times (new "probe" 2 30 1)) = 2%Z
  /\ _last_failure_time (record_failures demo_times (new "probe" 2 30 1)) = 4%Q.
Proof.
  apply (failures_open_at_threshold demo_times (new "probe" 2 30 1));
    [reflexivity | reflexivity | discriminate].
Defined.

Lemma successes_close_at_threshold_witness :
  _state (record_successes 2 half_open_one_success) = CLOSED
  /\ _failure_count (record_successes 2 half_open_one_success) = 0%Z
  /\ _success_count (record_successes 2 half_open_one_success) = 0%Z.
Proof.
  apply (successes_close_at_threshold 2 half_open_one_success);
    [reflexivity | reflexivity | discriminate].
Defined.

Lemma admission_is_stable_witness :
  can_execute 36 (snd (can_execute 35 open_at_5))
  = (true, snd (can_execute 35 open_at_5)).
Proof. apply admission_is_stable. reflexivity. Defined.

Lemma registry_first_creation_wins_witness :
  fst (get "api" demo_kwargs (snd (get "api" (mkKwargs None None None) ∅)))
  = new "api" 5 30 3.
Proof.
  pose proof (registry_first_creation_wins "api" "db" (mkKwargs None None None)
                demo_kwargs demo_kwargs ∅ (lookup_empty _)) as H.
  destruct H as (_ & H & _); [discriminate |].
  rewrite H. reflexivity.
Defined.

End circuit_breaker_more.


Module rate_limiter_props.
Import rate_limiter.

Lemma min_le_l (a b : Q) : (py.min a b <= a)%Q.
Proof. unfold py.min. destruct (Qlt_le_dec b a); lra. Qed.

Lemma min_ge (a b c : Q) : (c <= a)%Q -> (c <= b)%Q -> (c <= py.min a b)%Q.
Proof. unfold py.min. destruct (Qlt_le_dec b a); lra. Qed.

Lemma refill_invariant (now : Q) (self : TokenBucket) :
  ready now self ->
  invariant (_refill now self)
  /\ rate (_refill now self) = rate self
  /\ _last_update (_refill now self) = now.
Proof.
  intros ((H0 & Hc) & Hr & Ht). unfold invariant, _refill. simpl.
  split; [| split; reflexivity].
  assert (He : (0 <= (now - _last_update self) * rate self)%Q).
  { apply Qmult_le_0_compat; lra. }
  split; [apply min_ge; lra | apply min_le_l].
Qed.

Lemma consume_invariant (now n : Q) (self : TokenBucket) :
  ready now self -> (0 <= n)%Q ->
  invariant (snd (consume now n self))
  /\ rate (snd (consume now n self)) = rate self
  /\ _last_update (snd (consume now n self)) = now.
Proof.
  intros Hready Hn.
  destruct (refill_invariant now self Hready) as ((H0 & Hc) & Hr & Ht).
  unfold consume.
  destruct (Qle_bool n (_tokens (_refill now self))) eqn:E; simpl.
  - apply Qle_bool_iff in E. unfold invariant. simpl.
    repeat split; try assumption; simpl in *; lra.
  - repeat split; assumption.
Qed.

Lemma step_invariant (o : op) (self : TokenBucket) :
  ready (op_time o) self -> (0 <= op_amount o)%Q ->
  ready (op_time o) (step self o)
  /\ _last_update (step self o) = op_time o.
Proof.
  intros Hready Hn. pose proof Hready as (_ & Hrate & _).
  assert (H : invariant (step self o) /\ rate (step self o) = rate self
              /\ _last_update (step self o) = op_time o).
  { destruct o as [now n | now]; simpl in *.
    - apply consume_invariant; assumption.
    - apply refill_invariant; assumption. }
  destruct H as (Hi & Hr & Ht). unfold ready.
  rewrite Hr, Ht. split; [| reflexivity].
  split; [exact Hi |]. split; [exact Hrate | lra].
Qed.

Lemma history_invariant (ops : list op) :
  forall self : TokenBucket,
    invariant self -> (0 <= rate self)%Q ->
    monotonic (_last_update self) ops ->
    Forall (fun o => 0 <= op_amount o)%Q ops ->
    Forall invariant (history self ops).
Proof.
  induction ops as [| o ops IH]; intros self Hi Hr Hm Hn; simpl.
  - constructor.
  - destruct Hm as [Ht Hm]. inversion Hn as [| ? ? Hn0 Hn']; subst.
    destruct (step_invariant o self) as ((Hi' & Hr' & _) & Hu);
      [repeat split; try apply Hi; assumption | assumption |].
    constructor; [exact Hi' |].
    apply IH; try assumption. rewrite Hu. exact Hm.
Qed.

(** C3: a bucket created with positive capacity and rate satisfies
    [0 <= tokens <= capacity] after every operation of any sequence of
    [consume(n)] calls with [n >= 0] and refills, the clock being
    monotonic. *)
Theorem tokens_within_bounds (cap rt t0 : Q) (ops : list op) :
  (0 < cap)%Q -> (0 < rt)%Q ->
  monotonic t0 ops ->
  Forall (fun o => 0 <= op_amount o)%Q ops ->
  invariant (new cap rt t0) /\ Forall invariant (history (new cap rt t0) ops).
Proof.
  intros Hc Hr Hm Hn.
  assert (Hi : invariant (new cap rt t0)) by (unfold invariant; simpl; lra).
  split; [exact Hi |].
  apply history_invariant; simpl; try assumption. lra.
Qed.

Lemma tokens_within_bounds_witness :
  Forall invariant (history small_bucket burst).
Proof.
  refine (proj2 (tokens_within_bounds 3 (1 # 10) 0 burst _ _ _ _)).
  - reflexivity.
  - reflexivity.
  - simpl. repeat split; discriminate.
  - unfold burst. repeat constructor; simpl; discriminate.
Defined.

Lemma Qminus_0_r (x : Q) : (x - 0)%Q = x.
Proof.
  destruct x as [a b]. unfold Qminus, Qplus, Qopp. simpl. f_equal; lia.
Qed.

(** C4: [consume(n)] refills first; if the refilled count is at least [n]
    it answers TRUE and the count drops by exactly [n], otherwise it answers
    FALSE and the bucket is the refilled one.  On a well-formed bucket
    [consume(0)] answers TRUE and the count is the refilled count, which is
    the count before the call when no time has gone by. *)
Theorem consume_spec (now n : Q) (self : TokenBucket) :
  (0 <= n)%Q ->
  let refilled := _refill now self in
  _tokens refilled =
    py.min (capacity self)
      (_tokens self + (now - _last_update self) * rate self)%Q
  /\ ((n <= _tokens refilled)%Q ->
        consume now n self =
          (true, mkTokenBucket (capacity self) (rate self)
                   (_tokens refilled - n)%Q now))
  /\ ((_tokens refilled < n)%Q -> consume now n self = (false, refilled))
  /\ (ready now self ->
        consume now 0 self = (true, refilled)
        /\ ((now == _last_update self)%Q ->
            (_tokens (snd (consume now 0 self)) == _tokens self)%Q)).
Proof.
  intros Hn refilled. subst refilled.
  split; [reflexivity |]. split; [| split].
  - intros Hle. unfold consume. apply Qle_bool_iff in Hle. rewrite Hle.
    reflexivity.
  - intros Hlt. unfold consume.
    destruct (Qle_bool n (_tokens (_refill now self))) eqn:E; [| reflexivity].
    apply Qle_bool_iff in E. exfalso. apply (Qlt_not_le _ _ Hlt E).
  - intros Hready.
    destruct (refill_invariant now self Hready) as ((H0 & _) & _).
    assert (Hc : consume now 0 self = (true, _refill now self)).
    { unfold consume. apply Qle_bool_iff in H0. rewrite H0.
      rewrite Qminus_0_r. reflexivity. }
    split; [exact Hc |].
    intros Heq. rewrite Hc. simpl.
    destruct Hready as ((Ht0 & Htc) & _ & _).
    unfold py.min.
    destruct (Qlt_le_dec _ _) as [Hlt | Hge]; rewrite Heq in *; lra.
Qed.

Lemma consume_spec_witness :
  consume 1 1 small_bucket = (true, mkTokenBucket 3 (1 # 10) (3 - 1) 1)
  /\ consume 0 0 small_bucket = (true, _refill 0 small_bucket).
Proof.
  split.
  - refine (proj1 (proj2 (consume_spec 1 1 small_bucket _)) _); discriminate.
  - refine (proj1 (proj2 (proj2 (proj2 (consume_spec 0 0 small_bucket _))) _)).
    + discriminate.
    + repeat split; simpl; discriminate.
Defined.

End rate_limiter_props.

Module rate_limiter_more.
Import rate_limiter rate_limiter_props.

Lemma min_le_r (a b : Q) : (py.min a b <= b)%Q.
Proof. unfold py.min. destruct (Qlt_le_dec b a); lra. Qed.

Lemma refill_tokens_le_capacity (now : Q) (self : TokenBucket) :
  (_tokens (_refill now self) <= capacity self)%Q.
Proof. apply min_le_l. Qed.

(** [consume] refuses what the refilled bucket does not hold. *)
Lemma consume_short (now n : Q) (self : TokenBucket) :
  (_tokens (_refill now self) < n)%Q ->
  consume now n self = (false, _refill now self).
Proof.
  intros H. unfold consume.
  destruct (Qle_bool n (_tokens (_refill now self))) eqn:E; [| reflexivity].
  apply Qle_bool_iff in E. lra.
Qed.

(** X6: a request for more than the capacity is refused by every bucket,
    whatever its token count and the clock: [consume] answers FALSE and
    only the refill has happened. *)
Theorem consume_over_capacity (now n : Q) (self : TokenBucket) :
  (capacity self < n)%Q -> consume now n self = (false, _refill now self).
Proof.
  intros H. apply consume_short.
  pose proof (refill_tokens_le_capacity now self) as Hle.
  eapply Qle_lt_trans; [exact Hle | exact H].
Qed.

Lemma consume_false (now n : Q) (self : TokenBucket) :
  fst (consume now n self) = false ->
  consume now n self = (false, _refill now self)
  /\ (_tokens (_refill now self) < n)%Q.
Proof.
  unfold consume.
  destruct (Qle_bool n (_tokens (_refill now self))) eqn:E; cbn [fst];
    [discriminate |].
  intros _. split; [reflexivity |].
  apply Qnot_le_lt. intros H. apply Qle_bool_iff in H.
  rewrite H in E. discriminate E.
Qed.

(** X9: [wait_for_tokens(n)] with [n] above the capacity never returns:
    however many rounds the scheduler grants, the call is still waiting
    (rate not 0). *)
Theorem wait_over_capacity_never_returns (env : list (Q * Q * Q)) (n : Q) :
  forall (now : Q) (self : TokenBucket),
    ~ (rate self == 0)%Q -> (capacity self < n)%Q ->
    exists t b, wait_for_tokens env now n self = Waiting t b.
Proof.
  induction env as [| [[a b] c] env IH]; intros now self Hr Hc;
    cbn [wait_for_tokens]; [eauto |].
  rewrite consume_short
    by (pose proof (refill_tokens_le_capacity (now + a) self); lra).
  set (s2 := _refill (now + a + b) (_refill (now + a) self)).
  pose proof (refill_tokens_le_capacity (now + a + b) (_refill (now + a) self))
    as Hle.
  fold s2 in Hle. simpl capacity in Hle.
  destruct (Qle_bool (n - _tokens s2) 0) eqn:En;
    [apply Qle_bool_iff in En; lra |].
  destruct (Qeq_bool (rate s2) 0) eqn:Ez;
    [apply Qeq_bool_iff in Ez; contradiction |].
  apply IH; assumption.
Qed.

(** X10: on a bucket whose rate is 0, [wait_for_tokens] does not wait:
    when the first [consume] fails, the division by the rate raises
    [ZeroDivisionError] in that same round. *)
Theorem wait_with_zero_rate_fails (lag1 lag2 lag3 : Q)
    (env : list (Q * Q * Q)) (now n : Q) (self : TokenBucket) :
  (rate self == 0)%Q -> (0 <= lag2)%Q ->
  fst (consume (now + lag1) n self) = false ->
  wait_for_tokens ((lag1, lag2, lag3) :: env) now n self
  = Failed ZeroDivisionError
      (_refill (now + lag1 + lag2) (_refill (now + lag1) self)).
Proof.
  intros Hz Hl Hf. cbn [wait_for_tokens].
  destruct (consume_false _ _ _ Hf) as [-> Hlt].
  set (s1 := _refill (now + lag1) self) in *.
  set (s2 := _refill (now + lag1 + lag2) s1).
  assert (Ht : (_tokens s2 <= _tokens s1)%Q).
  { subst s2. simpl.
    pose proof (min_le_r (capacity self)
                  (_tokens s1 + (now + lag1 + lag2 - (now + lag1)) * rate self)).
    assert (E : ((now + lag1 + lag2 - (now + lag1)) * rate self == 0)%Q)
      by (rewrite Hz; ring).
    simpl in *. lra. }
  destruct (Qle_bool (n - _tokens s2) 0) eqn:En;
    [apply Qle_bool_iff in En; lra |].
  assert (Ez : Qeq_bool (rate s2) 0 = true) by (apply Qeq_bool_iff; exact Hz).
  rewrite Ez. reflexivity.
Qed.

(** X11: [check] on one key leaves the bucket of every key that derives to
    another bucket key as it was (present or absent). *)
Theorem check_leaves_other_keys (created now : Q) (k1 k2 : string) (n : Q)
    (self : RateLimiter) :
  _key_func self k1 <> _key_func self k2 ->
  _buckets (snd (check created now k1 n self)) !! _key_func self k2
  = _buckets self !! _key_func self k2.
Proof.
  intros Hne. unfold check, bucket_for.
  destruct (_buckets self !! _key_func self k1) as [b |];
    destruct (consume now n _) as [ok b']; simpl;
    apply lookup_insert_ne; exact Hne.
Qed.

Lemma consume_new (cap rt created now n : Q) :
  (0 <= rt)%Q -> (created <= now)%Q -> (n <= cap)%Q ->
  consume now n (new cap rt created)
  = (true, mkTokenBucket cap rt (cap - n) now).
Proof.
  intros Hr Ht Hn. unfold consume.
  assert (E : _refill now (new cap rt created) = mkTokenBucket cap rt cap now).
  { unfold _refill, new, py.min. simpl.
    destruct (Qlt_le_dec (cap + (now - created) * rt) cap) as [Hlt |];
      [| reflexivity].
    assert (0 <= (now - created) * rt)%Q by (apply Qmult_le_0_compat; lra).
    lra. }
  rewrite E. simpl. apply Qle_bool_iff in Hn. rewrite Hn. reflexivity.
Qed.

(** X12: after [reset(key)], the next [check(key, n)] with [n] at most the
    limiter's capacity answers TRUE and leaves a bucket holding
    [capacity - n], created anew (rate not negative, clock monotonic). *)
Theorem check_after_reset (created now : Q) (key : string) (n : Q)
    (self : RateLimiter) :
  (0 <= _rate self)%Q -> (created <= now)%Q -> (n <= _capacity self)%Q ->
  check created now key n (reset key self)
  = (true,
     store (_key_func self key)
       (mkTokenBucket (_capacity self) (_rate self) (_capacity self - n) now)
       (reset key self)).
Proof.
  intros Hr Ht Hn. unfold check, bucket_for, reset. simpl.
  rewrite lookup_delete_eq. rewrite consume_new by assumption. reflexivity.
Qed.

Lemma consume_over_capacity_witness :
  consume 1 4 small_bucket = (false, _refill 1 small_bucket).
Proof. apply consume_over_capacity. reflexivity. Defined.

Lemma wait_over_capacity_never_returns_witness :
  exists t b, wait_for_tokens demo_env 0 4 small_bucket = Waiting t b.
Proof.
  apply wait_over_capacity_never_returns; [discriminate | reflexivity].
Defined.

Lemma wait_with_zero_rate_fails_witness :
  wait_for_tokens demo_env 0 1 stalled_bucket
  = Failed ZeroDivisionError
      (_refill (0 + 0 + 0) (_refill (0 + 0) stalled_bucket)).
Proof.
  apply (wait_with_zero_rate_fails 0 0 (1 # 100)
           [(1 # 100, 0, 0)%Q; (0, 0, 0)%Q] 0 1 stalled_bucket).
  - reflexivity.
  - discriminate.
  - reflexivity.
Defined.

Lemma check_leaves_other_keys_witness :
  _buckets (snd (check 0 0 "a" 1 demo_limiter)) !! "b"
  = _buckets demo_limiter !! "b".
Proof.
  apply (check_leaves_other_keys 0 0 "a" "b" 1 demo_limiter). discriminate.
Defined.

Lemma check_after_reset_witness :
  fst (check 5 5 "a" 3 (reset "a" (snd (check 0 0 "a" 3 demo_limiter)))) = true.
Proof.
  pose proof (check_after_reset 5 5 "a" 3 (snd (check 0 0 "a" 3 demo_limiter)))
    as H.
  specialize (H ltac:(discriminate) ltac:(discriminate) ltac:(discriminate)).
  exact (f_equal fst H).
Defined.

End rate_limiter_more.


Module timeout_props.
Import py timeout.

(** C10: an override stored under the empty-string key is in the map but
    cannot be read back: [get_timeout("")] answers the default config, and
    [execute_with_timeout] without an explicit timeout and with key [""]
    hands the default config's [total] to [wait_for]. *)
Theorem empty_key_override_unreachable {coroutine T : Type}
    (wait_for : coroutine -> Q -> outcome T) (coro : coroutine)
    (cfg : TimeoutConfig) (self : TimeoutController) :
  _custom_timeouts (set_timeout "" cfg self) !! "" = Some cfg
  /\ get_timeout (Some "") (set_timeout "" cfg self) = _default_config self
  /\ execute_with_timeout wait_for coro None (Some "") (set_timeout "" cfg self)
     = wait_for coro (total (_default_config self)).
Proof.
  split; [apply lookup_insert_eq |]. split; reflexivity.
Qed.

(** Any other key reads its override back. *)
Lemma get_timeout_set_timeout (k : string) (cfg : TimeoutConfig)
    (self : TimeoutController) :
  k <> "" -> get_timeout (Some k) (set_timeout k cfg self) = cfg.
Proof.
  intros Hk. unfold get_timeout, set_timeout. simpl.
  destruct k as [| c k]; [congruence |]. simpl.
  rewrite lookup_insert_eq. reflexivity.
Qed.

End timeout_props.

Module timeout_more.
Import py timeout.

(** [dict.pop(key, None)] of a key that is not there is no change. *)
Lemma clear_timeout_absent (k : string) (self : TimeoutController) :
  _custom_timeouts self !! k = None -> clear_timeout k self = self.
Proof.
  intros H. destruct self as [d m]. unfold clear_timeout. simpl in *.
  f_equal. apply delete_id. exact H.
Qed.

(** X13: an override under a non-empty key is what [execute_with_timeout]
    uses for that key when no explicit timeout is given; setting or clearing
    it leaves what every other key reads unchanged; after [clear_timeout]
    the key reads the default again, and clearing a second time changes
    nothing more. *)
Theorem override_lifecycle {coroutine T : Type}
    (wait_for : coroutine -> Q -> outcome T) (coro : coroutine)
    (k k' : string) (cfg : TimeoutConfig) (self : TimeoutController) :
  k <> "" -> k' <> k ->
  execute_with_timeout wait_for coro None (Some k) (set_timeout k cfg self)
  = wait_for coro (total cfg)
  /\ get_timeout (Some k') (set_timeout k cfg self) = get_timeout (Some k') self
  /\ get_timeout (Some k') (clear_timeout k self) = get_timeout (Some k') self
  /\ get_timeout (Some k) (clear_timeout k (set_timeout k cfg self))
     = _default_config self
  /\ clear_timeout k (clear_timeout k self) = clear_timeout k self.
Proof.
  intros Hk Hk'. repeat split.
  - unfold execute_with_timeout, get_timeout, set_timeout. simpl.
    destruct k as [| c k]; [congruence |]. simpl.
    rewrite lookup_insert_eq. reflexivity.
  - unfold get_timeout, set_timeout. simpl.
    rewrite lookup_insert_ne by congruence. reflexivity.
  - unfold get_timeout, clear_timeout. simpl.
    rewrite lookup_delete_ne by congruence. reflexivity.
  - unfold get_timeout, clear_timeout, set_timeout. simpl.
    rewrite lookup_delete_eq. destruct (str_bool k); reflexivity.
  - apply clear_timeout_absent. unfold clear_timeout. simpl.
    apply lookup_delete_eq.
Qed.

Lemma override_lifecycle_witness :
  get_timeout (Some "api")
    (clear_timeout "api"
       (set_timeout "api" (mkTimeoutConfig 1 2 3) (new None)))
  = TimeoutConfig_default.
Proof.
  refine (proj1 (proj2 (proj2 (proj2
            (override_lifecycle (fun (_ : unit) (_ : Q) => Return tt) tt
               "api" "dns" (mkTimeoutConfig 1 2 3) (new None) _ _))))).
  - discriminate.
  - discriminate.
Defined.

End timeout_more.

Module sandbox_props.
Import string_props plugin_loader.

Lemma split_nonempty (sep : ascii) (s : string) : split sep s <> [].
Proof.
  destruct s as [| c s]; simpl; [discriminate |].
  destruct (Ascii.eqb c sep); [discriminate |].
  destruct (split sep s); discriminate.
Qed.

Lemma base_module_is_prefix (n : string) : prefix_to_first_dot n (base_module n).
Proof.
  unfold prefix_to_first_dot, base_module.
  induction n as [| c n IH]; simpl.
  - split; [tauto | left; reflexivity].
  - destruct (Ascii.eqb_spec c ".") as [-> | Hc]; simpl.
    + split; [tauto |]. right. exists n. reflexivity.
    + pose proof (split_nonempty "." n) as Hne.
      destruct (split "." n) as [| p ps]; [congruence |]. simpl in *.
      destruct IH as [Hnd Hn]. split.
      * intros [H | H]; [congruence | tauto].
      * destruct Hn as [-> | [rest ->]]; [left; reflexivity |].
        right. exists rest. reflexivity.
Qed.

Lemma prefix_to_first_dot_unique (n : string) :
  forall p q, prefix_to_first_dot n p -> prefix_to_first_dot n q -> p = q.
Proof.
  induction n as [| c n IH]; intros p q [Hp Hpn] [Hq Hqn].
  - assert (E : forall x, ("" = x \/ (exists rest, "" = x +:+ "." +:+ rest))
                          -> x = "").
    { intros x [H | [rest H]]; destruct x;
        rewrite ?append_nil_l, ?append_cons_l in *; congruence. }
    rewrite (E p Hpn), (E q Hqn). reflexivity.
  - assert (E : forall x, ~ In "."%char (list_ascii_of_string x) ->
               (String c n = x \/ (exists rest, String c n = x +:+ "." +:+ rest)) ->
               (c = "."%char /\ x = "")
               \/ (c <> "."%char /\ exists x', x = String c x'
                                       /\ prefix_to_first_dot n x')).
    { intros x Hx [H | [rest H]].
      - subst x. simpl in Hx. right. split; [tauto |].
        exists n. split; [reflexivity |]. split; [tauto | left; reflexivity].
      - destruct x as [| d x]; rewrite ?append_nil_l, ?append_cons_l in H;
          simpl in *.
        + left. split; congruence.
        + injection H as -> Hn. right. split; [tauto |].
          exists x. split; [reflexivity |]. split; [tauto |].
          right. exists rest. exact Hn. }
    destruct (E p Hp Hpn) as [[Hc ->] | [Hc (p' & -> & Hp')]];
      destruct (E q Hq Hqn) as [[Hc' ->] | [Hc' (q' & -> & Hq')]];
      try congruence.
    f_equal. apply IH; assumption.
Qed.

(** C9: [check_import(n)] is TRUE exactly when [n] is in [ALLOWED_MODULES]
    or the prefix of [n] up to its first ['.'] is; the four cases of the
    spec evaluate as stated. *)
Theorem check_import_spec :
  (forall n : string,
      check_import n = true <->
      (n ∈ ALLOWED_MODULES
       \/ exists p, prefix_to_first_dot n p /\ p ∈ ALLOWED_MODULES))
  /\ check_import "httpx" = true
  /\ check_import "urllib.parse" = true
  /\ check_import "os" = false
  /\ check_import "os.path" = false.
Proof.
  split; [| repeat split; vm_compute; reflexivity].
  intros n. unfold check_import. split.
  - case_bool_decide as Hn; [left; exact Hn |].
    intros Hb. apply bool_decide_eq_true in Hb.
    right. exists (base_module n). split; [apply base_module_is_prefix | exact Hb].
  - intros [Hn | (p & Hp & Hin)].
    + rewrite bool_decide_eq_true_2 by exact Hn. reflexivity.
    + case_bool_decide; [reflexivity |].
      apply bool_decide_eq_true.
      rewrite (prefix_to_first_dot_unique n _ _ (base_module_is_prefix n) Hp).
      exact Hin.
Qed.

End sandbox_props.

Module plugin_loader_props.
Import py plugin_loader.

Section with_runtime.
Variable hexdigest : string -> string.
Variable stem : string -> string.
Variable exec_module : string -> string -> string -> import_result.

Local Abbreviation load := (_load_vuln_plugin hexdigest stem exec_module).
Local Abbreviation reload := (reload_plugin hexdigest stem exec_module).
Local Abbreviation wf := (registry_wf stem).

Lemma String_eqb_refl (s : string) : String.eqb s s = true.
Proof. apply String.eqb_eq. reflexivity. Qed.

Lemma registry_wf_new : wf new.
Proof. intros k info H. unfold new in H. simpl in H.
  rewrite lookup_empty in H. discriminate. Qed.

Lemma load_callback path self w :
  _on_reload_callback (snd (load path self w)) = _on_reload_callback self.
Proof.
  unfold _load_vuln_plugin.
  destruct (_calculate_md5 hexdigest path w); [| reflexivity].
  destruct (already_loaded _ _ _); [reflexivity |].
  destruct (files w !! path); [| reflexivity].
  destruct (exec_module _ _ _) as [| e | m]; try reflexivity.
  destruct (vuln_info_attr m); reflexivity.
Qed.

(** A load either leaves the registry as it was or writes the entry of the
    file's stem, with this path and the digest of the file's content. *)
Lemma load_registry path self w :
  _plugins (snd (load path self w)) = _plugins self
  \/ exists info content,
       files w !! path = Some content
       /\ fst (load path self w) = Return true
       /\ file_path info = path /\ plugin_id info = stem path
       /\ md5 info = hexdigest content
       /\ _plugins (snd (load path self w)) = <[stem path := info]> (_plugins self).
Proof.
  unfold _load_vuln_plugin, _calculate_md5.
  destruct (files w !! path) as [content |]; [| left; reflexivity].
  destruct (already_loaded _ _ _); [left; reflexivity |].
  destruct (exec_module _ _ _) as [| e | m]; try (left; reflexivity).
  destruct (vuln_info_attr m) as [vi |]; [| left; reflexivity].
  right. eexists. exists content. simpl. repeat split. all: reflexivity.
Qed.

Lemma load_true_registry path self w :
  fst (load path self w) = Return true ->
  exists info content,
    files w !! path = Some content
    /\ file_path info = path /\ plugin_id info = stem path
    /\ md5 info = hexdigest content
    /\ _plugins (snd (load path self w)) = <[stem path := info]> (_plugins self).
Proof.
  unfold _load_vuln_plugin, _calculate_md5.
  destruct (files w !! path) as [content |]; [| discriminate].
  destruct (already_loaded _ _ _); [discriminate |].
  destruct (exec_module _ _ _) as [| e | m]; try discriminate.
  destruct (vuln_info_attr m) as [vi |]; [| discriminate].
  intros _. eexists. exists content. simpl. repeat split. all: reflexivity.
Qed.

Lemma registry_wf_load path self w : wf self -> wf (snd (load path self w)).
Proof.
  intros Hwf k info.
  destruct (load_registry path self w)
    as [-> | (i & c & _ & _ & Hp & Hid & _ & ->)]; [apply Hwf |].
  destruct (decide (stem path = k)) as [<- | Hne].
  - rewrite lookup_insert_eq. intros [= <-]. rewrite Hp. split; congruence.
  - rewrite lookup_insert_ne by exact Hne. apply Hwf.
Qed.

Lemma registry_wf_reload pid self w :
  wf self -> wf (snd (fst (reload pid self w))).
Proof.
  intros Hwf. unfold reload_plugin.
  destruct (_plugins self !! pid) as [info |] eqn:E; [| exact Hwf].
  destruct (files w !! file_path info); simpl.
  - pose proof (registry_wf_load (file_path info) self w Hwf) as Hl.
    destruct (load (file_path info) self w) as [[[] | e] self']; simpl in *;
      try exact Hl.
    destruct (_on_reload_callback self') as [cb |]; [| exact Hl].
    destruct (cb pid); exact Hl.
  - intros k i. simpl. intros Hk.
    apply lookup_delete_Some in Hk as [_ Hk]. apply (Hwf k i Hk).
Qed.

Lemma load_same_digest path self w info content :
  _plugins self !! stem path = Some info ->
  files w !! path = Some content ->
  md5 info = hexdigest content ->
  load path self w = (Return false, self).
Proof.
  intros Hreg Hfile Hmd5. unfold _load_vuln_plugin, _calculate_md5.
  rewrite Hfile. unfold already_loaded. rewrite Hreg, Hmd5, String_eqb_refl.
  reflexivity.
Qed.

(** C5: when the file of a registered plugin has the digest stored at its
    last load, [reload_plugin] answers FALSE and changes neither the loader
    (so [PluginInfo.md5] stays) nor the record of callback calls (the
    callback is not called); and loading a file a second time right after
    it was loaded answers FALSE and changes nothing. *)
Theorem reload_unchanged_is_noop (pid : string) (self : PluginLoader)
    (w : world) (info : PluginInfo) (content : string) :
  wf self ->
  _plugins self !! pid = Some info ->
  files w !! file_path info = Some content ->
  hexdigest content = md5 info ->
  reload pid self w = (Return false, self, w)
  /\ load (file_path info) self w = (Return false, self)
  /\ forall path self0,
       fst (load path self0 w) = Return true ->
       load path (snd (load path self0 w)) w
       = (Return false, snd (load path self0 w)).
Proof.
  intros Hwf Hreg Hfile Hmd5.
  destruct (Hwf pid info Hreg) as [Hstem _].
  assert (Hload : load (file_path info) self w = (Return false, self)).
  { apply (load_same_digest _ _ _ info content); [rewrite Hstem | |]; auto. }
  split; [| split].
  - unfold reload_plugin. rewrite Hreg, Hfile, Hload. reflexivity.
  - exact Hload.
  - intros path self0 Htrue.
    destruct (load_true_registry path self0 w Htrue)
      as (i & c & Hf & _ & _ & Hm & Hp).
    apply (load_same_digest _ _ _ i c); [| exact Hf | exact Hm].
    rewrite Hp. apply lookup_insert_eq.
Qed.

End with_runtime.

Lemma demo_loader_shape :
  _plugins demo_loader = {[ "test" := demo_info ]}
  /\ _on_reload_callback demo_loader = Some demo_callback.
Proof. split; reflexivity. Qed.

Lemma reload_unchanged_is_noop_witness :
  reload_plugin demo_hexdigest demo_stem demo_exec_module
    "test" demo_loader demo_world
  = (Return false, demo_loader, demo_world).
Proof.
  refine (proj1 (reload_unchanged_is_noop demo_hexdigest demo_stem
                   demo_exec_module "test" demo_loader demo_world
                   demo_info "v1" _ _ _ _)).
  - apply registry_wf_load. apply registry_wf_new.
  - reflexivity.
  - reflexivity.
  - reflexivity.
Defined.

End plugin_loader_props.

Module plugin_loader_more.
Import py plugin_loader plugin_loader_props.

Section with_runtime.
Variable hexdigest : string -> string.
Variable stem : string -> string.
Variable exec_module : string -> string -> string -> import_result.

Local Abbreviation load := (_load_vuln_plugin hexdigest stem exec_module).
Local Abbreviation reload := (reload_plugin hexdigest stem exec_module).
Local Abbreviation wf := (registry_wf stem).

Lemma String_eqb_false (a b : string) : a <> b -> String.eqb a b = false.
Proof. intros H. apply String.eqb_neq. exact H. Qed.

(** The load of a file with a manifest whose digest is not the stored one. *)
Lemma load_changed path self w content m vi :
  files w !! path = Some content ->
  already_loaded (stem path) (hexdigest content) self = false ->
  exec_module (stem path) path content = Executed m ->
  vuln_info_attr m = Some vi ->
  load path self w
  = (Return true,
     mkPluginLoader
       (<[stem path :=
            mkPluginInfo (stem path) (dict_get vi (lit "name") (VStr (lit (stem path))))
              "vuln" path (hexdigest content) true vi
              (find_vuln_class (module_dir m))]> (_plugins self))
       (_on_reload_callback self)).
Proof.
  intros Hf Ha He Hv. unfold _load_vuln_plugin, _calculate_md5.
  rewrite Hf, Ha, He, Hv. reflexivity.
Qed.

(** X20: when the file of a registered plugin has changed (its digest is
    not the stored one) and the new version executes and declares
    [__vuln_info__], [reload_plugin] registers it under the same id with the
    new digest and manifest and calls the callback exactly once with the
    plugin id; it answers TRUE, or raises what the callback raised, the
    plugin being reloaded all the same. *)
Theorem reload_changed_file (pid : string) (self : PluginLoader) (w : world)
    (info : PluginInfo) (content : string) (m : module_object)
    (vi : list (str * value)) (cb : callback) :
  wf self ->
  _plugins self !! pid = Some info ->
  files w !! file_path info = Some content ->
  hexdigest content <> md5 info ->
  exec_module pid (file_path info) content = Executed m ->
  vuln_info_attr m = Some vi ->
  _on_reload_callback self = Some cb ->
  let r := reload pid self w in
  fst (fst r) = match cb pid with Some e => Raise e | None => Return true end
  /\ (exists info', get_plugin pid (snd (fst r)) = Some info'
                    /\ md5 info' = hexdigest content
                    /\ file_path info' = file_path info
                    /\ metadata info' = vi)
  /\ callback_calls (snd r) = callback_calls w ++ [pid]
  /\ files (snd r) = files w.
Proof.
  intros Hwf Hreg Hfile Hne Hex Hvi Hcb r.
  destruct (Hwf pid info Hreg) as [Hstem _].
  assert (Ha : already_loaded (stem (file_path info)) (hexdigest content) self
               = false).
  { unfold already_loaded. rewrite Hstem, Hreg. apply String_eqb_false.
    congruence. }
  rewrite <- Hstem in Hex.
  pose proof (load_changed (file_path info) self w content m vi Hfile Ha Hex Hvi)
    as Hl.
  subst r. unfold reload_plugin. rewrite Hreg, Hfile, Hl. simpl.
  rewrite Hcb. unfold get_plugin.
  destruct (cb pid); simpl; rewrite Hstem, lookup_insert_eq;
    (split; [reflexivity |]); (split; [eauto |]); split; reflexivity.
Qed.

(** X21: [reload_plugin] of an id that is not registered answers FALSE and
    changes nothing; of a registered id whose file is gone it answers FALSE,
    drops that entry and no other, and does not call the callback. *)
Theorem reload_missing_or_unknown (pid : string) (self : PluginLoader)
    (w : world) :
  (_plugins self !! pid = None -> reload pid self w = (Return false, self, w))
  /\ (forall info,
        _plugins self !! pid = Some info ->
        files w !! file_path info = None ->
        fst (fst (reload pid self w)) = Return false
        /\ get_plugin pid (snd (fst (reload pid self w))) = None
        /\ (forall other, other <> pid ->
              get_plugin other (snd (fst (reload pid self w)))
              = get_plugin other self)
        /\ snd (reload pid self w) = w).
Proof.
  unfold reload_plugin, get_plugin. split.
  - intros ->. reflexivity.
  - intros info -> ->. simpl. repeat split.
    + apply lookup_delete_eq.
    + intros other Hne. apply lookup_delete_ne. congruence.
Qed.

Lemma load_not_true_unchanged path self w :
  fst (load path self w) <> Return true -> snd (load path self w) = self.
Proof.
  unfold _load_vuln_plugin.
  destruct (_calculate_md5 hexdigest path w); [| reflexivity].
  destruct (already_loaded _ _ _); [reflexivity |].
  destruct (files w !! path); [| reflexivity].
  destruct (exec_module _ _ _) as [| e | m]; try reflexivity.
  destruct (vuln_info_attr m); [| reflexivity].
  simpl. congruence.
Qed.

(** X22: when the changed file of a registered plugin does not load (no
    spec, no [__vuln_info__], or an exception at import), [reload_plugin]
    passes the outcome on and leaves loader and world as they were: the
    version loaded before stays registered. *)
Theorem failed_reload_keeps_the_plugin (pid : string) (self : PluginLoader)
    (w : world) (info : PluginInfo) (content : string) :
  _plugins self !! pid = Some info ->
  files w !! file_path info = Some content ->
  fst (load (file_path info) self w) <> Return true ->
  reload pid self w = (fst (load (file_path info) self w), self, w)
  /\ get_plugin pid (snd (fst (reload pid self w))) = Some info.
Proof.
  intros Hreg Hfile Hnot.
  pose proof (load_not_true_unchanged _ _ _ Hnot) as Hs.
  assert (E : reload pid self w = (fst (load (file_path info) self w), self, w)).
  { unfold reload_plugin. rewrite Hreg, Hfile.
    destruct (load (file_path info) self w) as [[[] | e] s']; simpl in *;
      subst; congruence. }
  split; [exact E |]. rewrite E. exact Hreg.
Qed.

End with_runtime.

Section walk.
(** One directory walk over a loader whose load of a path is stopped by a
    dedupe test [known] or else comes out as [verdict] says. *)
Context {State : Type}.
Variable file_name : string -> string.
Variable key : string -> string.
Variable load : string -> State -> outcome bool * State.
Variable known : string -> State -> bool.
Variable verdict : string -> outcome bool.

Hypothesis load_known : forall p st,
  known p st = true -> load p st = (Return false, st).
Hypothesis load_fresh : forall p st,
  known p st = false ->
  fst (load p st) = verdict p
  /\ (verdict p <> Return true -> snd (load p st) = st).
Hypothesis load_learns : forall p st,
  known p st = false -> verdict p = Return true ->
  known p (snd (load p st)) = true.
Hypothesis load_keeps : forall p q st,
  key p <> key q -> known q (snd (load p st)) = known q st.

Local Abbreviation walk := (load_each file_name load).
Local Abbreviation is_settled := (settled known verdict).
Local Abbreviation kept := (eligible file_name).

Lemma load_keeps_settled p q st :
  key p <> key q -> is_settled q st -> is_settled q (snd (load p st)).
Proof.
  intros Hne [Hk | Hv]; [left | right; exact Hv].
  rewrite load_keeps by exact Hne. exact Hk.
Qed.

Lemma walk_keeps_settled (paths : list string) (q : string) :
  forall count st,
    key q ∉ map key (kept paths) ->
    is_settled q st -> is_settled q (snd (walk paths count st)).
Proof.
  induction paths as [| p rest IH]; intros count st Hq Hs; simpl; [exact Hs |].
  unfold eligible in Hq. simpl in Hq.
  destruct (startswith "_" (file_name p)) eqn:Ep; simpl in Hq.
  - apply IH; assumption.
  - apply not_elem_of_cons in Hq as [Hne Hq].
    pose proof (load_keeps_settled p q st (not_eq_sym Hne) Hs) as Hs'.
    destruct (load p st) as [[[] | e] st']; simpl in Hs';
      try (apply IH; assumption).
    destruct (isinstance_Exception e); [apply IH; assumption | exact Hs'].
Qed.

Lemma load_settles p st :
  (forall e, fst (load p st) = Raise e -> isinstance_Exception e = true) ->
  is_settled p (snd (load p st)).
Proof.
  intros Hex. destruct (known p st) eqn:Ek.
  - rewrite (load_known p st Ek). left. exact Ek.
  - destruct (load_fresh p st Ek) as [Hv Hsame]. unfold settled.
    destruct (verdict p) as [[] | e] eqn:Ev.
    + left. apply load_learns; assumption.
    + right. split; [discriminate | intros e' H; discriminate H].
    + right. split; [discriminate |].
      intros e' [= <-]. apply Hex. exact Hv.
Qed.

Lemma walk_settles (paths : list string) :
  forall count st n,
    NoDup (map key (kept paths)) ->
    fst (walk paths count st) = Return n ->
    Forall (fun p => is_settled p (snd (walk paths count st))) (kept paths).
Proof.
  induction paths as [| p rest IH]; intros count st n Hnd Hret; simpl;
    [constructor |].
  unfold eligible in *. simpl in *.
  destruct (startswith "_" (file_name p)) eqn:Ep; simpl in *.
  - apply (IH count st n); assumption.
  - apply NoDup_cons in Hnd as [Hnotin Hnd].
    assert (Hstep : forall c st',
              snd (load p st) = st' ->
              (forall e, fst (load p st) = Raise e ->
                         isinstance_Exception e = true) ->
              fst (walk rest c st') = Return n ->
              Forall (fun q => is_settled q (snd (walk rest c st')))
                (p :: List.filter
                        (fun q => negb (startswith "_" (file_name q))) rest)).
    { intros c st' Est Hex Hr. constructor.
      - apply walk_keeps_settled; [exact Hnotin |].
        rewrite <- Est. apply load_settles. exact Hex.
      - apply (IH c st' n); assumption. }
    destruct (load p st) as [[[] | e] st'] eqn:El; simpl in *.
    + apply Hstep; [reflexivity | discriminate | exact Hret].
    + apply Hstep; [reflexivity | discriminate | exact Hret].
    + destruct (isinstance_Exception e) eqn:Ee; [| discriminate Hret].
      apply Hstep; [reflexivity | | exact Hret].
      intros e' [= <-]. exact Ee.
Qed.

Lemma walk_settled_is_idle (paths : list string) :
  forall count st,
    Forall (fun p => is_settled p st) (kept paths) ->
    walk paths count st = (Return count, st).
Proof.
  induction paths as [| p rest IH]; intros count st Hall; simpl;
    [reflexivity |].
  unfold eligible in *. simpl in *.
  destruct (startswith "_" (file_name p)) eqn:Ep; simpl in *.
  - apply IH. exact Hall.
  - apply Forall_cons in Hall as [Hp Hrest].
    destruct (known p st) eqn:Ek.
    + rewrite (load_known p st Ek). apply IH. exact Hrest.
    + destruct Hp as [Hk | [Hnt Hex]]; [congruence |].
      destruct (load_fresh p st Ek) as [Hv Hsame].
      specialize (Hsame Hnt).
      destruct (load p st) as [r st']. simpl in *. subst st'.
      rewrite Hv. destruct (verdict p) as [[] | e] eqn:Ev;
        [congruence | apply IH; exact Hrest |].
      rewrite (Hex e eq_refl). apply IH. exact Hrest.
Qed.

Theorem walk_twice (paths : list string) (count count' : nat) (st : State)
    (n : nat) :
  NoDup (map key (kept paths)) ->
  fst (walk paths count st) = Return n ->
  walk paths count' (snd (walk paths count st))
  = (Return count', snd (walk paths count st)).
Proof.
  intros Hnd Hret. apply walk_settled_is_idle.
  apply (walk_settles paths count st n); assumption.
Qed.

End walk.

Section load_all_twice.
Variable hexdigest : string -> string.
Variable stem : string -> string.
Variable exec_module : string -> string -> string -> import_result.
Variable file_name : string -> string.
Variable instantiate : string -> string -> option exn.
Variable w : world.

Local Abbreviation vload :=
  (fun p s => _load_vuln_plugin hexdigest stem exec_module p s w).
Local Abbreviation tload :=
  (fun p t => _load_tool_plugin hexdigest stem exec_module instantiate p t w).
Local Abbreviation vknown := (vuln_known hexdigest stem w).
Local Abbreviation tknown := (tool_known hexdigest stem w).
Local Abbreviation vverdict := (vuln_verdict stem exec_module w).
Local Abbreviation tverdict := (tool_verdict stem exec_module instantiate w).

Lemma vload_known p st : vknown p st = true -> vload p st = (Return false, st).
Proof.
  unfold vuln_known, _load_vuln_plugin, _calculate_md5.
  destruct (files w !! p); [| discriminate]. intros ->. reflexivity.
Qed.

Lemma vload_fresh p st :
  vknown p st = false ->
  fst (vload p st) = vverdict p
  /\ (vverdict p <> Return true -> snd (vload p st) = st).
Proof.
  unfold vuln_known, vuln_verdict, _load_vuln_plugin, _calculate_md5.
  destruct (files w !! p); [| auto]. intros ->.
  destruct (exec_module _ _ _) as [| e | m]; simpl; auto.
  destruct (vuln_info_attr m); simpl; auto. split; [reflexivity | congruence].
Qed.

Lemma vload_learns p st :
  vknown p st = false -> vverdict p = Return true ->
  vknown p (snd (vload p st)) = true.
Proof.
  unfold vuln_known, vuln_verdict, _load_vuln_plugin, _calculate_md5.
  destruct (files w !! p); [| discriminate]. intros ->.
  destruct (exec_module _ _ _) as [| e | m]; try discriminate.
  destruct (vuln_info_attr m); [| discriminate]. intros _. simpl.
  unfold already_loaded. simpl. rewrite lookup_insert_eq. simpl.
  apply String.eqb_refl.
Qed.

Lemma vload_keeps p q st :
  stem p <> stem q -> vknown q (snd (vload p st)) = vknown q st.
Proof.
  intros Hne. unfold vuln_known. destruct (files w !! q); [| reflexivity].
  unfold already_loaded.
  destruct (load_registry hexdigest stem exec_module p st w)
    as [-> | (i & c & _ & _ & _ & _ & _ & ->)]; [reflexivity |].
  rewrite lookup_insert_ne by exact Hne. reflexivity.
Qed.

Lemma tload_known p st : tknown p st = true -> tload p st = (Return false, st).
Proof.
  unfold tool_known, _load_tool_plugin, _calculate_md5.
  destruct (files w !! p); [| discriminate]. intros ->. reflexivity.
Qed.

Lemma tload_fresh p st :
  tknown p st = false ->
  fst (tload p st) = tverdict p
  /\ (tverdict p <> Return true -> snd (tload p st) = st).
Proof.
  unfold tool_known, tool_verdict, _load_tool_plugin, _calculate_md5.
  destruct (files w !! p); [| auto]. intros ->.
  destruct (exec_module _ _ _) as [| e | m]; simpl; auto.
  destruct (find_tool_class (module_dir m)) as [cls |]; simpl; auto.
  destruct (instantiate (stem p) cls); simpl; auto.
  split; [reflexivity | congruence].
Qed.

Lemma tload_learns p st :
  tknown p st = false -> tverdict p = Return true ->
  tknown p (snd (tload p st)) = true.
Proof.
  unfold tool_known, tool_verdict, _load_tool_plugin, _calculate_md5.
  destruct (files w !! p); [| discriminate]. intros ->.
  destruct (exec_module _ _ _) as [| e | m]; try discriminate.
  destruct (find_tool_class (module_dir m)) as [cls |]; [| discriminate].
  destruct (instantiate (stem p) cls); [discriminate |]. intros _. simpl.
  unfold tool_already_loaded. rewrite lookup_insert_eq. simpl.
  apply String.eqb_refl.
Qed.

Lemma tload_keeps p q st :
  stem p <> stem q -> tknown q (snd (tload p st)) = tknown q st.
Proof.
  intros Hne. unfold tool_known. destruct (files w !! q); [| reflexivity].
  unfold _load_tool_plugin, _calculate_md5.
  destruct (files w !! p); [| reflexivity].
  destruct (tool_already_loaded (stem p) _ st); [reflexivity |].
  unfold tool_already_loaded.
  destruct (exec_module _ _ _) as [| e | m]; try reflexivity.
  destruct (find_tool_class (module_dir m)) as [cls |]; [| reflexivity].
  destruct (instantiate (stem p) cls); [reflexivity |]. simpl.
  rewrite lookup_insert_ne by exact Hne. reflexivity.
Qed.

(** X23: when no two files of a directory that are not skipped share a
    stem, a [load_all] that returned is followed by a [load_all] over the
    same files that returns 0 and changes neither registry. *)
Theorem load_all_twice_loads_nothing (vuln_files tool_files : list string)
    (self : PluginLoader) (tools : gmap string tool) (n : nat) :
  NoDup (map stem (eligible file_name vuln_files)) ->
  NoDup (map stem (eligible file_name tool_files)) ->
  let first := load_all hexdigest stem exec_module file_name instantiate
                 vuln_files tool_files self tools w in
  fst (fst first) = Return n ->
  load_all hexdigest stem exec_module file_name instantiate
    vuln_files tool_files (snd (fst first)) (snd first) w
  = (Return 0%nat, snd (fst first), snd first).
Proof.
  intros Hv Ht first Hret. subst first. unfold load_all in *.
  pose proof (walk_twice file_name stem vload vknown vverdict
                vload_known vload_fresh vload_learns vload_keeps
                vuln_files 0 0 self) as Wv.
  destruct (load_each file_name vload vuln_files 0 self) as [[c | e] self1]
    eqn:E1; [| discriminate Hret].
  simpl in Wv. specialize (Wv c Hv eq_refl).
  pose proof (walk_twice file_name stem tload tknown tverdict
                tload_known tload_fresh tload_learns tload_keeps
                tool_files c 0 tools) as Wt.
  destruct (load_each file_name tload tool_files c tools) as [r tools1] eqn:E2.
  simpl in *. subst r. specialize (Wt n Ht eq_refl).
  rewrite Wv, Wt. reflexivity.
Qed.

(** X24: two vulnerability plugin files with the same stem and different
    contents evict each other: once the registry holds the second, every
    walk over the two loads both again, counts 2 and ends holding the
    second again. *)
Theorem same_stem_files_evict_each_other (p q : string)
    (cp cq : string) (mp mq : module_object) (vp vq : list (str * value))
    (self : PluginLoader) (info : PluginInfo) (count : nat) :
  stem p = stem q ->
  files w !! p = Some cp -> files w !! q = Some cq ->
  hexdigest cp <> hexdigest cq ->
  startswith "_" (file_name p) = false ->
  startswith "_" (file_name q) = false ->
  exec_module (stem p) p cp = Executed mp -> vuln_info_attr mp = Some vp ->
  exec_module (stem q) q cq = Executed mq -> vuln_info_attr mq = Some vq ->
  _plugins self !! stem q = Some info -> md5 info = hexdigest cq ->
  let r := load_each file_name vload [p; q] count self in
  fst r = Return (S (S count))
  /\ exists info', _plugins (snd r) !! stem q = Some info'
                   /\ md5 info' = hexdigest cq /\ file_path info' = q.
Proof.
  intros Hst Hp Hq Hne Ep Eq Xp Vp Xq Vq Hreg Hmd r. subst r.
  assert (L1 : already_loaded (stem p) (hexdigest cp) self = false).
  { unfold already_loaded. rewrite Hst, Hreg, Hmd.
    apply String.eqb_neq. congruence. }
  pose proof (load_changed hexdigest stem exec_module p self w cp mp vp
                Hp L1 Xp Vp) as E1.
  match type of E1 with _ = (_, ?s) => set (self1 := s) in * end.
  assert (L2 : already_loaded (stem q) (hexdigest cq) self1 = false).
  { unfold already_loaded. subst self1. simpl.
    rewrite <- Hst, lookup_insert_eq. simpl. apply String.eqb_neq. exact Hne. }
  pose proof (load_changed hexdigest stem exec_module q self1 w cq mq vq
                Hq L2 Xq Vq) as E2.
  cbn [load_each]. cbv beta. rewrite Ep, E1. cbv beta iota.
  rewrite Eq, E2. cbv beta iota. cbn [fst snd _plugins].
  split; [reflexivity |].
  eexists. rewrite lookup_insert_eq. repeat split.
Qed.

End load_all_twice.

Section sandbox_namespace.
Variable builtins_dir : list string.

Lemma restricted_fold (names : list string) :
  forall (acc : gmap string string) (name : string),
    foldl (fun safe_builtins n =>
             if kept_builtin n then <[n := n]> safe_builtins
             else safe_builtins) acc names !! name
    = if bool_decide (name ∈ names) && kept_builtin name then Some name
      else acc !! name.
Proof.
  induction names as [| n names IH]; intros acc name; simpl; [reflexivity |].
  rewrite IH.
  destruct (decide (name = n)) as [-> | Hne].
  - rewrite (bool_decide_eq_true_2 (n ∈ n :: names)) by left. simpl.
    destruct (kept_builtin n) eqn:Ek.
    + rewrite andb_true_r, lookup_insert_eq.
      destruct (bool_decide _); reflexivity.
    + rewrite andb_false_r. reflexivity.
  - assert (E : bool_decide (name ∈ n :: names) = bool_decide (name ∈ names)).
    { apply bool_decide_ext. rewrite elem_of_cons. tauto. }
    rewrite E. destruct (bool_decide (name ∈ names) && kept_builtin name);
      [reflexivity |].
    destruct (kept_builtin n); [| reflexivity].
    apply lookup_insert_ne. congruence.
Qed.

(** X25: the restricted namespace holds a name exactly when it is in
    [dir(builtins)], is not in [BLOCKED_BUILTINS] and does not start with an
    underscore; a blocked name and a name that starts with an underscore are
    never in it. *)
Theorem restricted_globals_spec (name : string) :
  (create_restricted_globals builtins_dir !! name = Some name
   <-> (name ∈ builtins_dir) /\ (name ∉ BLOCKED_BUILTINS)
       /\ startswith "_" name = false)
  /\ (name ∈ BLOCKED_BUILTINS \/ startswith "_" name = true ->
      create_restricted_globals builtins_dir !! name = None).
Proof.
  unfold create_restricted_globals.
  rewrite restricted_fold, lookup_empty. unfold kept_builtin. split.
  - split.
    + destruct (bool_decide (name ∈ builtins_dir)) eqn:E1; [| discriminate].
      destruct (bool_decide (name ∈ BLOCKED_BUILTINS)) eqn:E2; [discriminate |].
      destruct (startswith "_" name); [discriminate |]. intros _.
      apply bool_decide_eq_true in E1. apply bool_decide_eq_false in E2. auto.
    + intros (H1 & H2 & H3).
      rewrite (bool_decide_eq_true_2 _ H1), (bool_decide_eq_false_2 _ H2), H3.
      reflexivity.
  - intros [H | H].
    + rewrite (bool_decide_eq_true_2 _ H). simpl. rewrite andb_false_r.
      reflexivity.
    + rewrite H. simpl. rewrite !andb_false_r. reflexivity.
Qed.

End sandbox_namespace.

Lemma reload_changed_file_witness :
  fst (fst (reload_plugin demo_hexdigest demo_stem demo_exec_module "test"
              demo_loader edited_world)) = Return true
  /\ callback_calls
       (snd (reload_plugin demo_hexdigest demo_stem demo_exec_module "test"
               demo_loader edited_world)) = ["test"].
Proof.
  pose proof (reload_changed_file demo_hexdigest demo_stem demo_exec_module
                "test" demo_loader edited_world demo_info "v2"
                (mkModule (Some [(lit "name", VStr (lit "Test"))])
                   [mkAttribute "X" true true])
                [(lit "name", VStr (lit "Test"))] demo_callback) as H.
  destruct H as (H1 & _ & H3 & _).
  - apply registry_wf_load. apply registry_wf_new.
  - reflexivity.
  - reflexivity.
  - discriminate.
  - reflexivity.
  - reflexivity.
  - reflexivity.
  - split; [exact H1 | exact H3].
Defined.

Lemma reload_missing_or_unknown_witness :
  get_plugin "test"
    (snd (fst (reload_plugin demo_hexdigest demo_stem demo_exec_module "test"
                 demo_loader (mkWorld ∅ [])))) = None.
Proof.
  refine (proj1 (proj2 (proj2 (reload_missing_or_unknown demo_hexdigest
                                 demo_stem demo_exec_module "test" demo_loader
                                 (mkWorld ∅ [])) demo_info _ _))).
  - reflexivity.
  - reflexivity.
Defined.

Lemma failed_reload_keeps_the_plugin_witness :
  get_plugin "test"
    (snd (fst (reload_plugin demo_hexdigest demo_stem demo_exec_module "test"
                 demo_loader broken_world))) = Some demo_info.
Proof.
  refine (proj2 (failed_reload_keeps_the_plugin demo_hexdigest demo_stem
                   demo_exec_module "test" demo_loader broken_world demo_info
                   "broken" _ _ _)).
  - reflexivity.
  - reflexivity.
  - vm_compute. discriminate.
Defined.

Lemma load_all_twice_loads_nothing_witness :
  let first := load_all demo_hexdigest demo_stem demo_exec_module
                 demo_file_name demo_instantiate ["test.py"; "_helper.py"] []
                 new ∅ demo_world in
  fst (fst first) = Return 1%nat
  /\ load_all demo_hexdigest demo_stem demo_exec_module demo_file_name
       demo_instantiate ["test.py"; "_helper.py"] []
       (snd (fst first)) (snd first) demo_world
     = (Return 0%nat, snd (fst first), snd first).
Proof.
  split; [reflexivity |].
  apply (load_all_twice_loads_nothing demo_hexdigest demo_stem
           demo_exec_module demo_file_name demo_instantiate demo_world
           ["test.py"; "_helper.py"] [] new ∅ 1%nat).
  - apply (bool_decide_unpack _). vm_compute. exact I.
  - apply (bool_decide_unpack _). vm_compute. exact I.
  - reflexivity.
Defined.

Lemma same_stem_files_evict_each_other_witness :
  fst (load_each demo_file_name
         (fun p s => _load_vuln_plugin demo_hexdigest demo_stem
                       demo_exec_module p s twin_world)
         ["test.py"; "test.v2.py"] 0 twin_loader) = Return 2%nat.
Proof.
  refine (proj1 (same_stem_files_evict_each_other demo_hexdigest demo_stem
                   demo_exec_module demo_file_name twin_world
                   "test.py" "test.v2.py" "v1" "v2"
                   (mkModule (Some [(lit "name", VStr (lit "Test"))])
                      [mkAttribute "X" true true])
                   (mkModule (Some [(lit "name", VStr (lit "Test"))])
                      [mkAttribute "X" true true])
                   [(lit "name", VStr (lit "Test"))] [(lit "name", VStr (lit "Test"))]
                   twin_loader twin_info 0 _ _ _ _ _ _ _ _ _ _ _ _));
    first [reflexivity | discriminate].
Defined.

Lemma restricted_globals_spec_witness :
  create_restricted_globals ["eval"; "len"; "_x"; "print"] !! "eval" = None
  /\ create_restricted_globals ["eval"; "len"; "_x"; "print"] !! "len"
     = Some "len".
Proof.
  split.
  - apply (proj2 (restricted_globals_spec ["eval"; "len"; "_x"; "print"]
                    "eval")).
    left. apply (bool_decide_unpack _). vm_compute. exact I.
  - apply (proj1 (restricted_globals_spec ["eval"; "len"; "_x"; "print"]
                    "len")).
    split; [| split; [| reflexivity]]; apply (bool_decide_unpack _);
      vm_compute; exact I.
Defined.

End plugin_loader_more.


Module datetime_props.
Import string_props datetime.

Lemma digit_inj (a b : Z) :
  (0 <= a <= 9)%Z -> (0 <= b <= 9)%Z -> digit a = digit b -> a = b.
Proof.
  intros Ha Hb H. unfold digit in H.
  apply (f_equal nat_of_ascii) in H.
  rewrite !nat_ascii_embedding in H by lia. lia.
Qed.

Lemma zfill_prefix (w : nat) :
  forall n1 n2 r1 r2,
    (0 <= n1 < 10 ^ Z.of_nat w)%Z -> (0 <= n2 < 10 ^ Z.of_nat w)%Z ->
    zfill w n1 +:+ r1 = zfill w n2 +:+ r2 -> n1 = n2 /\ r1 = r2.
Proof.
  induction w as [| w IH]; intros n1 n2 r1 r2 H1 H2 H.
  - simpl in *. split; [lia | exact H].
  - cbn [zfill] in H. rewrite !append_cons_l in H. injection H as Hd Hr.
    assert (Hp : (0 < 10 ^ Z.of_nat w)%Z) by (apply Z.pow_pos_nonneg; lia).
    assert (Hs : (10 ^ Z.of_nat (S w) = 10 * 10 ^ Z.of_nat w)%Z).
    { rewrite Nat2Z.inj_succ, Z.pow_succ_r by lia. reflexivity. }
    rewrite Hs in H1, H2.
    assert (Hq : forall n, (0 <= n < 10 * 10 ^ Z.of_nat w)%Z ->
                           (0 <= n / 10 ^ Z.of_nat w <= 9)%Z).
    { intros n Hn. split.
      - apply Z.div_pos; lia.
      - assert (n / 10 ^ Z.of_nat w < 10)%Z; [| lia].
        apply Z.div_lt_upper_bound; lia. }
    apply digit_inj in Hd; [| apply Hq; assumption | apply Hq; assumption].
    destruct (IH _ _ _ _ (Z.mod_pos_bound n1 _ Hp) (Z.mod_pos_bound n2 _ Hp) Hr)
      as [Hm ->].
    split; [| reflexivity].
    rewrite (Z.div_mod n1 (10 ^ Z.of_nat w)), (Z.div_mod n2 (10 ^ Z.of_nat w))
      by lia.
    rewrite Hd, Hm. reflexivity.
Qed.

Lemma isoformat_inj (d1 d2 : datetime) :
  valid d1 -> valid d2 -> isoformat d1 = isoformat d2 -> d1 = d2.
Proof.
  intros V1 V2 H.
  destruct d1 as [y1 mo1 dd1 h1 mi1 s1 us1], d2 as [y2 mo2 dd2 h2 mi2 s2 us2].
  unfold valid in V1, V2. simpl in V1, V2.
  unfold isoformat, strftime_date in H.
  cbn [year month day hour minute second microsecond] in H.
  repeat rewrite append_assoc in H.
  apply zfill_prefix in H as [-> H]; [| simpl; lia | simpl; lia].
  apply append_inv_head in H.
  apply zfill_prefix in H as [-> H]; [| simpl; lia | simpl; lia].
  apply append_inv_head in H.
  apply zfill_prefix in H as [-> H]; [| simpl; lia | simpl; lia].
  apply append_inv_head in H.
  apply zfill_prefix in H as [-> H]; [| simpl; lia | simpl; lia].
  apply append_inv_head in H.
  apply zfill_prefix in H as [-> H]; [| simpl; lia | simpl; lia].
  apply append_inv_head in H.
  apply zfill_prefix in H as [-> H]; [| simpl; lia | simpl; lia].
  destruct (Z.eqb_spec us1 0) as [-> | N1], (Z.eqb_spec us2 0) as [-> | N2].
  - reflexivity.
  - discriminate H.
  - discriminate H.
  - apply append_inv_head in H.
    rewrite <- (append_nil_r (zfill 6 us1)) in H.
    rewrite <- (append_nil_r (zfill 6 us2)) in H.
    apply zfill_prefix in H as [-> _]; [reflexivity | simpl; lia | simpl; lia].
Qed.

End datetime_props.

Module json_props.
Import string_props py json.

(** A property of the numbers below a bound, checked on each of them. *)
Lemma below_forallb (f : N -> bool) (n : nat) :
  forallb f (map N.of_nat (seq 0 n)) = true ->
  forall k, (k < N.of_nat n)%N -> f k = true.
Proof.
  intros H k Hk. rewrite forallb_forall in H. apply H.
  apply in_map_iff. exists (N.to_nat k). split; [lia |].
  apply in_seq. lia.
Qed.

Lemma hex_value_digit (d : N) :
  (d < 16)%N -> hex_value (hex_digit d) = Some d.
Proof.
  intros H.
  assert (E : (match hex_value (hex_digit d) with
               | Some e => (e =? d)%N
               | None => false
               end) = true).
  { revert d H. apply (below_forallb _ 16). vm_compute. reflexivity. }
  destruct (hex_value (hex_digit d)) as [e |]; [| discriminate E].
  apply N.eqb_eq in E. congruence.
Qed.

Lemma parse_hex4_hex4 (n : N) (t : string) :
  (n < 0x10000)%N -> parse_hex4 (hex4 n +:+ t) = Some (n, t).
Proof.
  intros H. unfold hex4. rewrite !append_cons_l, append_nil_l.
  unfold parse_hex4.
  rewrite !hex_value_digit by (apply N.mod_lt; discriminate).
  f_equal. f_equal. zify. Z.to_euclidean_division_equations. lia.
Qed.

Lemma u_escape_app (n : N) (t : string) :
  u_escape n +:+ t = String "\" (String "u" (hex4 n +:+ t)).
Proof. reflexivity. Qed.

Lemma unescape_char_u (r : string) :
  unescape_char (String "\" (String "u" r)) = unescape_u r.
Proof. reflexivity. Qed.

(** The two surrogates of [escape_char], by arithmetic. *)
Lemma lor_high (k : N) : (k < 1024)%N -> N.lor 0xd800 k = (0xd800 + k)%N.
Proof.
  intros H. apply N.eqb_eq. revert k H.
  apply (below_forallb (fun k => (N.lor 0xd800 k =? 0xd800 + k)%N) 1024).
  vm_compute. reflexivity.
Qed.

Lemma lor_low (k : N) : (k < 1024)%N -> N.lor 0xdc00 k = (0xdc00 + k)%N.
Proof.
  intros H. apply N.eqb_eq. revert k H.
  apply (below_forallb (fun k => (N.lor 0xdc00 k =? 0xdc00 + k)%N) 1024).
  vm_compute. reflexivity.
Qed.

Lemma land_1023 (a : N) : N.land a 0x3ff = (a mod 1024)%N.
Proof. exact (N.land_ones a 10). Qed.

Lemma shiftr_10 (a : N) : N.shiftr a 10 = (a / 1024)%N.
Proof. exact (N.shiftr_div_pow2 a 10). Qed.

Lemma ascii_of_N_eqb (c : N) (a : ascii) :
  (c < 256)%N -> c <> N_of_ascii a -> Ascii.eqb (ascii_of_N c) a = false.
Proof.
  intros Hc Hne. apply Ascii.eqb_neq. intros E. apply Hne.
  rewrite <- E. symmetry. apply N_ascii_embedding. exact Hc.
Qed.

Lemma scalar_bounds (c : N) :
  scalar c = true ->
  (c < 0x110000)%N /\ ~ (0xd800 <= c <= 0xdfff)%N.
Proof.
  unfold scalar. intros H. apply orb_true_iff in H as [H | H].
  - apply N.ltb_lt in H. lia.
  - apply andb_true_iff in H as [H1 H2]. apply N.ltb_lt in H1, H2. lia.
Qed.

(** Reading back the escape of a code point of Unicode text gives the code
    point, whatever follows. *)
Lemma unescape_escape_char (c : N) (t : string) :
  scalar c = true -> unescape_char (escape_char c +:+ t) = Some (c, t).
Proof.
  intros Hs. apply scalar_bounds in Hs as [Hc Hsur]. unfold escape_char.
  destruct (N.eqb_spec c 34) as [-> | H34]; [reflexivity |].
  destruct (N.eqb_spec c 92) as [-> | H92]; [reflexivity |].
  destruct (N.eqb_spec c 10) as [-> | H10]; [reflexivity |].
  destruct (N.eqb_spec c 13) as [-> | H13]; [reflexivity |].
  destruct (N.eqb_spec c 9) as [-> | H9]; [reflexivity |].
  destruct (N.eqb_spec c 8) as [-> | H8]; [reflexivity |].
  destruct (N.eqb_spec c 12) as [-> | H12]; [reflexivity |].
  destruct ((32 <=? c) && (c <=? 126))%N eqn:Hp.
  - apply andb_true_iff in Hp as [Hlo Hhi].
    apply N.leb_le in Hlo, Hhi.
    rewrite append_cons_l, append_nil_l. unfold unescape_char.
    rewrite (ascii_of_N_eqb c dquote) by (simpl; lia).
    rewrite (ascii_of_N_eqb c "\") by (simpl; lia).
    rewrite N_ascii_embedding by lia. reflexivity.
  - destruct (N.ltb_spec c 0x10000) as [Hb | Hb].
    + rewrite u_escape_app, unescape_char_u. unfold unescape_u.
      rewrite parse_hex4_hex4 by exact Hb.
      destruct ((0xd800 <=? c) && (c <=? 0xdbff))%N eqn:Hh; [| reflexivity].
      exfalso. apply andb_true_iff in Hh as [A B].
      apply N.leb_le in A, B. lia.
    + cbv zeta. rewrite land_1023, land_1023, shiftr_10.
      set (hi := ((c - 0x10000) / 1024 mod 1024)%N).
      set (lo := ((c - 0x10000) mod 1024)%N).
      assert (Hhi : (hi < 1024)%N) by (apply N.mod_lt; discriminate).
      assert (Hlo : (lo < 1024)%N) by (apply N.mod_lt; discriminate).
      rewrite (lor_high hi Hhi), (lor_low lo Hlo).
      rewrite append_assoc, u_escape_app, unescape_char_u. unfold unescape_u.
      rewrite parse_hex4_hex4 by lia.
      replace ((0xd800 <=? 0xd800 + hi) && (0xd800 + hi <=? 0xdbff))%N
        with true
        by (symmetry; apply andb_true_iff; split; apply N.leb_le; lia).
      rewrite u_escape_app. rewrite parse_hex4_hex4 by lia.
      replace ((0xdc00 <=? 0xdc00 + lo) && (0xdc00 + lo <=? 0xdfff))%N
        with true
        by (symmetry; apply andb_true_iff; split; apply N.leb_le; lia).
      f_equal. f_equal. subst hi lo.
      zify. Z.to_euclidean_division_equations. lia.
Qed.

Lemma unescape_quote (r : string) : unescape_char (String dquote r) = None.
Proof. reflexivity. Qed.

Lemma escape_prefix (s1 : str) :
  text s1 = true ->
  forall s2 r1 r2,
    text s2 = true ->
    escape s1 +:+ String dquote r1 = escape s2 +:+ String dquote r2 ->
    s1 = s2 /\ r1 = r2.
Proof.
  induction s1 as [| c1 s1 IH]; intros T1 [| c2 s2] r1 r2 T2 H;
    cbn [escape text forallb] in *.
  - rewrite !append_nil_l in H. injection H as ->. split; reflexivity.
  - apply andb_true_iff in T2 as [C2 _].
    rewrite append_nil_l, append_assoc in H.
    apply (f_equal unescape_char) in H.
    rewrite unescape_escape_char, unescape_quote in H by exact C2.
    discriminate H.
  - apply andb_true_iff in T1 as [C1 _].
    rewrite append_nil_l, append_assoc in H.
    apply (f_equal unescape_char) in H.
    rewrite unescape_escape_char, unescape_quote in H by exact C1.
    discriminate H.
  - apply andb_true_iff in T1 as [C1 T1], T2 as [C2 T2].
    rewrite !append_assoc in H.
    apply (f_equal unescape_char) in H.
    rewrite !unescape_escape_char in H by assumption. injection H as -> H.
    destruct (IH T1 _ _ _ T2 H) as [-> ->]. split; reflexivity.
Qed.

Lemma encode_basestring_prefix (s1 s2 : str) (r1 r2 : string) :
  text s1 = true -> text s2 = true ->
  encode_basestring_ascii s1 +:+ r1 = encode_basestring_ascii s2 +:+ r2 ->
  s1 = s2 /\ r1 = r2.
Proof.
  intros T1 T2. unfold encode_basestring_ascii.
  rewrite !append_cons_l, !append_assoc.
  rewrite !append_cons_l, !append_nil_l. intros [= H].
  exact (escape_prefix _ T1 _ _ _ T2 H).
Qed.

(** Without that condition the text does not determine the [str]: U+1F600
    and the two surrogates U+D83D U+DE00 are written the same. *)
Lemma surrogates_collide :
  encode_basestring_ascii [0x1f600%N]
  = encode_basestring_ascii [0xd83d%N; 0xde00%N].
Proof. vm_compute. reflexivity. Qed.

(** The code points of a [string] are Unicode text and determine it. *)
Lemma text_lit (s : string) : text (lit s) = true.
Proof.
  unfold lit. induction s as [| c s IH]; [reflexivity |].
  cbn [list_ascii_of_string map text forallb]. fold (text (lit s)).
  unfold lit, text in *. rewrite IH, andb_true_r.
  unfold scalar. apply orb_true_iff. left. apply N.ltb_lt.
  pose proof (N_ascii_bounded c). lia.
Qed.

Lemma lit_inj (s1 s2 : string) : lit s1 = lit s2 -> s1 = s2.
Proof.
  unfold lit. revert s2.
  induction s1 as [| c1 s1 IH]; intros [| c2 s2] H; simpl in H;
    try discriminate H; [reflexivity |].
  injection H as Hc Hs. f_equal; [| exact (IH _ Hs)].
  rewrite <- (ascii_N_embedding c1), <- (ascii_N_embedding c2), Hc.
  reflexivity.
Qed.

Lemma uint_prefix (d1 : uint) :
  forall d2 r1 r2,
    no_digit_head r1 -> no_digit_head r2 ->
    NilEmpty.string_of_uint d1 +:+ r1 = NilEmpty.string_of_uint d2 +:+ r2 ->
    d1 = d2 /\ r1 = r2.
Proof.
  induction d1 as [| d1 IH | d1 IH | d1 IH | d1 IH | d1 IH | d1 IH | d1 IH
                   | d1 IH | d1 IH | d1 IH];
    intros [| d2 | d2 | d2 | d2 | d2 | d2 | d2 | d2 | d2 | d2] r1 r2 N1 N2 H;
    cbn [NilEmpty.string_of_uint] in H;
    rewrite ?append_cons_l, ?append_nil_l in H;
    first
      [ discriminate H
      | subst; split; reflexivity
      | subst r1; simpl in N1; discriminate N1
      | subst r2; simpl in N2; discriminate N2
      | injection H as H; destruct (IH _ _ _ N1 N2 H) as [-> ->];
        split; reflexivity ].
Qed.

Lemma to_int_nonnil (z : Z) (d : uint) :
  Z.to_int z = Pos d \/ Z.to_int z = Neg d -> d <> Nil.
Proof.
  destruct z as [| p | p]; simpl; intros [H | H]; try discriminate H;
    injection H as <-; try discriminate; apply Unsigned.to_uint_nonnil.
Qed.

Lemma uint_head (d : uint) (r : string) :
  d <> Nil -> head_kind (NilEmpty.string_of_uint d +:+ r) = 3%N.
Proof. destruct d; intros H; [congruence | reflexivity ..]. Qed.

Lemma str_of_int_head (z : Z) (r : string) :
  head_kind (str_of_int z +:+ r) = 3%N.
Proof.
  unfold str_of_int. destruct (Z.to_int z) as [d | d] eqn:E; simpl.
  - apply uint_head. apply (to_int_nonnil z). left. exact E.
  - reflexivity.
Qed.

Lemma str_of_int_prefix (z1 z2 : Z) (r1 r2 : string) :
  no_digit_head r1 -> no_digit_head r2 ->
  str_of_int z1 +:+ r1 = str_of_int z2 +:+ r2 -> z1 = z2 /\ r1 = r2.
Proof.
  intros N1 N2 H. unfold str_of_int in H.
  destruct (Z.to_int z1) as [d1 | d1] eqn:E1,
           (Z.to_int z2) as [d2 | d2] eqn:E2;
    cbn [NilEmpty.string_of_int] in H; rewrite ?append_cons_l in H.
  - destruct (uint_prefix _ _ _ _ N1 N2 H) as [-> ->].
    split; [| reflexivity]. apply to_int_inj. congruence.
  - exfalso. pose proof (to_int_nonnil z1 d1 (or_introl E1)) as Hn.
    destruct d1; [congruence | ..];
      cbn [NilEmpty.string_of_uint] in H; rewrite append_cons_l in H;
      discriminate H.
  - exfalso. pose proof (to_int_nonnil z2 d2 (or_introl E2)) as Hn.
    destruct d2; [congruence | ..];
      cbn [NilEmpty.string_of_uint] in H; rewrite append_cons_l in H;
      discriminate H.
  - injection H as H. destruct (uint_prefix _ _ _ _ N1 N2 H) as [-> ->].
    split; [| reflexivity]. apply to_int_inj. congruence.
Qed.

Lemma value_induction (P : value -> Prop) :
  P VNone -> (forall b, P (VBool b)) -> (forall z, P (VInt z)) ->
  (forall s, P (VStr s)) ->
  (forall l, Forall P l -> P (VList l)) ->
  (forall l, Forall P l -> P (VTuple l)) ->
  (forall d, Forall (fun kv => P (snd kv)) d -> P (VDict d)) ->
  (forall r, P (VObject r)) ->
  forall v, P v.
Proof.
  intros HN HB HI HS HL HT HD HO. fix IH 1.
  intros [| b | z | s | l | l | d | r].
  - exact HN.
  - apply HB.
  - apply HI.
  - apply HS.
  - apply HL. induction l as [| x l IHl]; constructor; [apply IH | exact IHl].
  - apply HT. induction l as [| x l IHl]; constructor; [apply IH | exact IHl].
  - apply HD. induction d as [| [k x] d IHd]; constructor;
      [apply IH | exact IHd].
  - apply HO.
Qed.

Lemma join_cons (sep x : string) (l : list string) (t : string) :
  join sep (x :: l) +:+ t
  = x +:+ match l with
          | [] => t
          | _ :: _ => sep +:+ join sep l +:+ t
          end.
Proof.
  destruct l as [| y l]; [reflexivity |].
  cbn [join]. rewrite !append_assoc. reflexivity.
Qed.

Section items.
(** The elements of a list or the entries of a dict, written one after the
    other with [", "] between them and a closing bracket at the end. *)
Context {A : Type}.
Variable enc : A -> string.
Variable ok : A -> Prop.
Variable closer : ascii.
Hypothesis closer_kind : forall r, head_kind (String closer r) = 0%N.
Hypothesis closer_no_digit : is_digit closer = false.
Hypothesis closer_no_comma : closer <> ","%char.
Hypothesis enc_kind : forall x r, ok x -> head_kind (enc x +:+ r) <> 0%N.

Lemma items_prefix (l1 : list A) :
  Forall (readable enc ok) l1 -> Forall ok l1 ->
  forall l2 r1 r2, Forall ok l2 ->
    join ", " (map enc l1) +:+ String closer r1
    = join ", " (map enc l2) +:+ String closer r2 ->
    l1 = l2 /\ r1 = r2.
Proof.
  induction 1 as [| x l1 Hx _ IH]; intros Hok1 l2 r1 r2 Hok2 H.
  - destruct l2 as [| y l2].
    + simpl in H. rewrite !append_nil_l in H. injection H as ->.
      split; reflexivity.
    + exfalso. cbn [map] in H. rewrite join_cons in H.
      cbn [join] in H. rewrite append_nil_l in H.
      apply (f_equal head_kind) in H. rewrite closer_kind in H.
      symmetry in H. revert H. apply enc_kind.
      inversion Hok2; assumption.
  - inversion Hok1 as [| ? ? Hokx Hok1']; subst.
    destruct l2 as [| y l2].
    + exfalso. cbn [map] in H. rewrite join_cons in H.
      cbn [join] in H. rewrite append_nil_l in H.
      apply (f_equal head_kind) in H. rewrite closer_kind in H.
      revert H. apply enc_kind. exact Hokx.
    + inversion Hok2 as [| ? ? Hoky Hok2']; subst.
      cbn [map] in H. rewrite !join_cons in H.
      apply Hx in H; [| exact Hoky | |].
      * destruct H as [-> H].
        destruct l1 as [| x1 l1], l2 as [| y1 l2]; cbn [map] in H.
        -- injection H as ->. split; reflexivity.
        -- exfalso. rewrite append_cons_l in H. injection H as Hc _.
           exact (closer_no_comma Hc).
        -- exfalso. rewrite append_cons_l in H. injection H as Hc _.
           exact (closer_no_comma (eq_sym Hc)).
        -- apply append_inv_head in H.
           destruct (IH Hok1' _ _ _ Hok2' H) as [E ->].
           cbn [map] in E. rewrite E. split; reflexivity.
      * destruct (map enc l1); [exact closer_no_digit | reflexivity].
      * destruct (map enc l2); [exact closer_no_digit | reflexivity].
Qed.

End items.

Lemma head_kind_encode (v : value) (r : string) :
  native v = true -> head_kind (encode v +:+ r) = kind v.
Proof.
  destruct v as [| [] | z | s | l | l | d | o]; cbn [native encode kind];
    try discriminate; intros _; try reflexivity.
  apply str_of_int_head.
Qed.

Lemma forallb_Forall {A : Type} (f : A -> bool) (l : list A) :
  forallb f l = true -> Forall (fun x => f x = true) l.
Proof.
  induction l as [| x l IH]; simpl; [constructor |].
  intros H. apply andb_true_iff in H as [Hx Hl].
  constructor; [exact Hx | exact (IH Hl)].
Qed.

(** The text of a JSON-native value, followed by anything that does not
    start with a digit, determines the value and what follows. *)
Theorem encode_prefix (v1 : value) :
  native v1 = true ->
  forall v2 r1 r2,
    native v2 = true -> no_digit_head r1 -> no_digit_head r2 ->
    encode v1 +:+ r1 = encode v2 +:+ r2 -> v1 = v2 /\ r1 = r2.
Proof.
  induction v1 as [| b1 | z1 | s1 | l1 IH | l1 IH | d1 IH | o1]
    using value_induction; intros Hn1 v2 r1 r2 Hn2 N1 N2 H;
    try discriminate Hn1;
    (destruct v2 as [| b2 | z2 | s2 | l2 | l2 | d2 | o2];
     try discriminate Hn2;
     try (exfalso; apply (f_equal head_kind) in H;
          rewrite !head_kind_encode in H by assumption;
          discriminate H)).
  - cbn [encode] in H. apply append_inv_head in H. split; congruence.
  - destruct b1, b2; cbn [encode] in H;
      try (rewrite !append_cons_l in H; discriminate H);
      apply append_inv_head in H; split; congruence.
  - cbn [encode] in H.
    destruct (str_of_int_prefix _ _ _ _ N1 N2 H) as [-> ->].
    split; reflexivity.
  - cbn [encode] in H.
    destruct (encode_basestring_prefix _ _ _ _ Hn1 Hn2 H) as [-> ->].
    split; reflexivity.
  - cbn [encode native] in *. rewrite !append_assoc in H.
    apply append_inv_head in H.
    apply forallb_Forall in Hn1, Hn2.
    apply (items_prefix encode (fun v => native v = true) "]") in H;
      try assumption.
    + destruct H as [-> ->]. split; reflexivity.
    + reflexivity.
    + reflexivity.
    + discriminate.
    + intros x r Hx. rewrite head_kind_encode by exact Hx.
      destruct x; try discriminate Hx; discriminate.
    + rewrite Forall_forall in IH, Hn1. apply Forall_forall.
      intros x Hin y q1 q2 Hy. apply (IH x Hin (Hn1 x Hin)). exact Hy.
  - cbn [encode native] in *. rewrite !append_assoc in H.
    apply append_inv_head in H.
    apply forallb_Forall in Hn1, Hn2.
    apply (items_prefix
             (fun kv : str * value =>
                encode_basestring_ascii (fst kv) +:+ ": " +:+ encode (snd kv))
             (fun kv => text (fst kv) && native (snd kv) = true) "}") in H;
      try assumption.
    + destruct H as [-> ->]. split; reflexivity.
    + reflexivity.
    + reflexivity.
    + discriminate.
    + intros x r Hx. unfold encode_basestring_ascii.
      rewrite !append_cons_l. discriminate.
    + rewrite Forall_forall in IH, Hn1. apply Forall_forall.
      intros [k x] Hin [k' y] q1 q2 Hy Q1 Q2 E.
      pose proof (Hn1 (k, x) Hin) as Hx. cbn [fst snd] in *.
      apply andb_true_iff in Hx as [Tk Nx], Hy as [Tk' Ny].
      rewrite !append_assoc in E.
      apply (encode_basestring_prefix _ _ _ _ Tk Tk') in E as [-> E].
      apply append_inv_head in E.
      destruct (IH (k', x) Hin Nx y q1 q2 Ny Q1 Q2 E) as [E1 E2].
      cbn [snd] in E1. subst. split; reflexivity.
Qed.

Lemma Forall_forallb {A : Type} (f : A -> bool) (l : list A) :
  Forall (fun x => f x = true) l -> forallb f l = true.
Proof.
  induction 1 as [| x l Hx _ IH]; simpl; [reflexivity |].
  rewrite Hx, IH. reflexivity.
Qed.

Lemma native_serializable (v : value) :
  native v = true -> serializable v = true.
Proof.
  induction v as [| | | | l IH | l IH | d IH |] using value_induction;
    intros Hv; try reflexivity; try discriminate Hv;
    cbn [native serializable] in *;
    apply forallb_Forall in Hv; apply Forall_forallb;
    rewrite Forall_forall in *; intros x Hin; apply IH;
    [exact Hin | apply Hv, Hin | exact Hin |].
  exact (proj2 (proj1 (andb_true_iff _ _) (Hv x Hin))).
Qed.

(** [json.dumps] is injective on JSON-native values. *)
Corollary dumps_native_inj (v1 v2 : value) :
  native v1 = true -> native v2 = true -> dumps v1 = dumps v2 -> v1 = v2.
Proof.
  intros H1 H2 H.
  pose proof (native_serializable v1 H1) as S1.
  pose proof (native_serializable v2 H2) as S2.
  unfold dumps in H. rewrite S1, S2 in H. injection H as H.
  rewrite <- (append_nil_r (encode v1)), <- (append_nil_r (encode v2)) in H.
  apply (encode_prefix v1 H1 v2 "" "" H2 I I H).
Qed.

End json_props.

Module json_text_props.
Import string_props py json json_props.

Lemma all_printable_app (a b : string) :
  all_printable (a +:+ b) = all_printable a && all_printable b.
Proof.
  induction a as [| c a IH]; [reflexivity |].
  rewrite append_cons_l. cbn [all_printable]. rewrite IH.
  apply andb_assoc.
Qed.

Lemma hex_digit_printable (d : N) :
  (d < 16)%N -> printable (hex_digit d) = true.
Proof. revert d. apply (below_forallb _ 16). vm_compute. reflexivity. Qed.

Lemma u_escape_printable (n : N) : all_printable (u_escape n) = true.
Proof.
  unfold u_escape, hex4. cbn [all_printable].
  rewrite !hex_digit_printable by (apply N.mod_lt; discriminate).
  reflexivity.
Qed.

(** Every code point, a surrogate included, is written in printable
    ASCII. *)
Lemma escape_char_printable (c : N) : all_printable (escape_char c) = true.
Proof.
  unfold escape_char.
  repeat match goal with
         | |- context [(c =? ?k)%N] => destruct (c =? k)%N; [reflexivity |]
         end.
  destruct ((32 <=? c) && (c <=? 126))%N eqn:Hp.
  - apply andb_true_iff in Hp as [Hlo Hhi]. apply N.leb_le in Hlo, Hhi.
    cbn [all_printable]. unfold printable.
    rewrite N_ascii_embedding by lia.
    rewrite (proj2 (N.leb_le _ _) Hlo), (proj2 (N.leb_le _ _) Hhi).
    reflexivity.
  - destruct (c <? 0x10000)%N; [apply u_escape_printable |].
    cbv zeta. rewrite all_printable_app, !u_escape_printable. reflexivity.
Qed.

Lemma escape_printable (s : str) : all_printable (escape s) = true.
Proof.
  induction s as [| c s IH]; [reflexivity |].
  cbn [escape]. rewrite all_printable_app, escape_char_printable, IH.
  reflexivity.
Qed.

Lemma encode_basestring_printable (s : str) :
  all_printable (encode_basestring_ascii s) = true.
Proof.
  unfold encode_basestring_ascii. cbn [all_printable].
  rewrite all_printable_app, escape_printable. reflexivity.
Qed.

Lemma uint_printable (d : uint) :
  all_printable (NilEmpty.string_of_uint d) = true.
Proof. induction d; cbn [NilEmpty.string_of_uint all_printable]; auto. Qed.

Lemma str_of_int_printable (z : Z) : all_printable (str_of_int z) = true.
Proof.
  unfold str_of_int. destruct (Z.to_int z); cbn [NilEmpty.string_of_int];
    [| cbn [all_printable]]; rewrite uint_printable; reflexivity.
Qed.

Lemma join_printable (parts : list string) :
  Forall (fun s => all_printable s = true) parts ->
  all_printable (join ", " parts) = true.
Proof.
  induction 1 as [| x l Hx Hl IH]; [reflexivity |].
  destruct l as [| y l]; [exact Hx |].
  change (join ", " (x :: y :: l)) with (x +:+ ", " +:+ join ", " (y :: l)).
  rewrite !all_printable_app, Hx, IH. reflexivity.
Qed.

Lemma encode_printable (v : value) :
  serializable v = true -> all_printable (encode v) = true.
Proof.
  induction v as [| [] | z | s | l IH | l IH | d IH | o]
    using value_induction; intros Hs; try reflexivity;
    cbn [encode serializable] in *.
  - apply str_of_int_printable.
  - apply encode_basestring_printable.
  - rewrite !all_printable_app, join_printable; [reflexivity |].
    apply forallb_Forall in Hs. apply Forall_map.
    rewrite Forall_forall in *. intros x Hin. apply IH; [exact Hin |].
    apply Hs, Hin.
  - rewrite !all_printable_app, join_printable; [reflexivity |].
    apply forallb_Forall in Hs. apply Forall_map.
    rewrite Forall_forall in *. intros x Hin. apply IH; [exact Hin |].
    apply Hs, Hin.
  - rewrite !all_printable_app, join_printable; [reflexivity |].
    apply forallb_Forall in Hs. apply Forall_map.
    rewrite Forall_forall in *. intros [k x] Hin. cbn [fst snd].
    rewrite !all_printable_app, encode_basestring_printable.
    pose proof (IH (k, x) Hin (Hs (k, x) Hin)) as Hx. cbn [snd] in Hx.
    rewrite Hx. reflexivity.
Qed.

Lemma all_printable_no_newline (s : string) :
  all_printable s = true -> ~ In "010"%char (list_ascii_of_string s).
Proof.
  induction s as [| c s IH]; simpl; [tauto |].
  intros H. apply andb_true_iff in H as [Hc Hs].
  intros [E | Hin]; [subst c; discriminate Hc | exact (IH Hs Hin)].
Qed.

End json_text_props.

Module audit_log_props.
Import py audit_log.

Lemma sum_by_type_empty : sum_by_type ∅ = 0%Z.
Proof. unfold sum_by_type. apply map_fold_empty. Qed.

Lemma sum_by_type_insert_fresh (m : gmap string Z) (k : string) (n : Z) :
  m !! k = None -> sum_by_type (<[k := n]> m) = (n + sum_by_type m)%Z.
Proof.
  intros Hk. unfold sum_by_type.
  apply (map_fold_insert_L (fun _ n acc => (n + acc)%Z)); [| exact Hk].
  intros. lia.
Qed.

Lemma sum_by_type_bump (m : gmap string Z) (k : string) :
  sum_by_type (<[k := (default 0 (m !! k) + 1)%Z]> m) = (sum_by_type m + 1)%Z.
Proof.
  destruct (m !! k) as [v |] eqn:Hk; simpl.
  - rewrite <- insert_delete_eq.
    rewrite sum_by_type_insert_fresh by apply lookup_delete_eq.
    unfold sum_by_type at 2.
    rewrite (map_fold_delete_L (fun _ n acc => (n + acc)%Z) 0%Z k v m);
      [| intros; lia | exact Hk].
    fold (sum_by_type (delete k m)). lia.
  - rewrite sum_by_type_insert_fresh by exact Hk. lia.
Qed.

(** The filter loop of the source answers what the wording of the claim
    says: TRUE exactly when every registered filter answers TRUE. *)
Lemma apply_filters_forallb (filters : list filter) (event : AuditEvent) :
  apply_filters filters event = forallb (fun f => f event) filters.
Proof.
  induction filters as [| f rest IH]; simpl; [reflexivity |].
  destruct (f event); simpl; [exact IH | reflexivity].
Qed.

Lemma apply_filters_rejects (filters : list filter) (event : AuditEvent) :
  Exists (fun f => f event = false) filters ->
  apply_filters filters event = false.
Proof.
  induction 1 as [f rest Hf | f rest _ IH]; simpl.
  - rewrite Hf. reflexivity.
  - destruct (f event); simpl; [exact IH | reflexivity].
Qed.

Section with_directory.
Variable newest_first : string -> gmap string string -> list string.

Local Abbreviation rotate := (_rotate_if_needed newest_first).
Local Abbreviation write_file := (_write_file newest_first).
Local Abbreviation write_event := (_write_event newest_first).
Local Abbreviation do_log := (log newest_first).
Local Abbreviation do_call := (perform newest_first).
Local Abbreviation do_calls := (perform_all newest_first).
Local Abbreviation n_passed := (passed newest_first).

Lemma rotate_counters now self w :
  counters (fst (rotate now self w)) = counters self
  /\ _filters (fst (rotate now self w)) = _filters self.
Proof.
  unfold _rotate_if_needed.
  destruct (negb (_enable_file self)); [split; reflexivity |].
  match goal with |- context [if ?b then _ else _] => destruct b end;
    split; reflexivity.
Qed.

Lemma write_file_counters now line self w :
  counters (fst (write_file now line self w)) = counters self.
Proof.
  unfold _write_file.
  pose proof (rotate_counters now self w) as [H _].
  destruct (rotate now self w) as [self' w']. simpl in H.
  destruct (_file_handle self'); exact H.
Qed.

Lemma write_event_counters now event self w :
  counters (snd (fst (write_event now event self w))) = counters self.
Proof.
  unfold _write_event.
  destruct (to_json event); [| reflexivity].
  destruct (_enable_file self); [| reflexivity].
  pose proof (write_file_counters now v self
                (if _enable_console self then _write_console event w else w)) as H.
  destruct (write_file _ _ _ _) as [self' w']. exact H.
Qed.

(** One accepted [log] call adds one to the total and one to the sum of
    the per-type counters; a rejected one changes nothing at all. *)
Lemma log_counters created written ty msg sev uid ip tgt det self w :
  let event := mkAuditEvent ty sev msg uid ip tgt (default [] det) created in
  let self' := snd (fst (do_log created written ty msg sev uid ip tgt det self w)) in
  let bump := if forallb (fun f => f event) (_filters self) then 1%Z else 0%Z in
  _event_count self' = (_event_count self + bump)%Z
  /\ sum_by_type (_events_by_type self')
     = (sum_by_type (_events_by_type self) + bump)%Z.
Proof.
  intros event self' bump. subst self' bump. unfold log.
  fold event. rewrite apply_filters_forallb.
  destruct (forallb _ _); simpl; [| split; lia].
  set (counted := count_event (AuditEventType.value ty) self).
  assert (Hc : _event_count counted = (_event_count self + 1)%Z
               /\ sum_by_type (_events_by_type counted)
                  = (sum_by_type (_events_by_type self) + 1)%Z).
  { subst counted. simpl. split; [reflexivity | apply sum_by_type_bump]. }
  destruct (call_handlers 0 _ event w) as [[e |] w']; simpl;
    [exact Hc |].
  pose proof (write_event_counters written event counted w') as H.
  unfold counters in H. injection H as H1 H2. rewrite H1, H2. exact Hc.
Qed.

Lemma perform_counters c self w :
  let self' := fst (do_call c self w) in
  let bump := if passes c self then 1%Z else 0%Z in
  _event_count self' = (_event_count self + bump)%Z
  /\ sum_by_type (_events_by_type self')
     = (sum_by_type (_events_by_type self) + bump)%Z.
Proof.
  destruct c as [created written ty msg sev uid ip tgt det | f | h | now |];
    simpl.
  - pose proof (log_counters created written ty msg sev uid ip tgt det self w)
      as H. simpl in H. unfold passes. simpl.
    destruct (do_log _ _ _ _ _ _ _ _ _ _ _) as [[r self'] w']. exact H.
  - split; lia.
  - split; lia.
  - unfold initialize. destruct (_enable_file self); [| simpl; split; lia].
    pose proof (rotate_counters now self w) as [H _]. unfold counters in H.
    injection H as -> ->. split; lia.
  - split; lia.
Qed.

Lemma perform_all_counters calls :
  forall self w,
    let self' := fst (do_calls calls self w) in
    _event_count self' = (_event_count self + Z.of_nat (n_passed calls self w))%Z
    /\ sum_by_type (_events_by_type self')
       = (sum_by_type (_events_by_type self)
          + Z.of_nat (n_passed calls self w))%Z.
Proof.
  induction calls as [| c rest IH]; intros self w; simpl.
  - split; lia.
  - pose proof (perform_counters c self w) as [H1 H2]. simpl in H1, H2.
    destruct (do_call c self w) as [self1 w1]. simpl in *.
    destruct (IH self1 w1) as [I1 I2]. simpl in I1, I2.
    rewrite I1, I2, H1, H2.
    destruct (passes c self); split; lia.
Qed.

(** C7: on a fresh logger, after any sequence of calls, [total_events] and
    the sum over [events_by_type] both equal the number of [log] calls in
    which no registered filter answered FALSE; and a [log] call for which
    some filter answers FALSE returns leaving the logger, its counters, the
    files and the trace of sink calls and output exactly as they were. *)
Theorem log_statistics (log_dir : string) (max_file_size max_files : Z)
    (enable_console enable_file : bool) (calls : list call) (w : world) :
  let fresh := new log_dir max_file_size max_files enable_console enable_file in
  let final := fst (do_calls calls fresh w) in
  total_events (get_stats final) = Z.of_nat (n_passed calls fresh w)
  /\ sum_by_type (events_by_type (get_stats final))
     = Z.of_nat (n_passed calls fresh w)
  /\ forall created written ty msg sev uid ip tgt det self w0,
       Exists (fun f => f (mkAuditEvent ty sev msg uid ip tgt (default [] det)
                             created) = false) (_filters self) ->
       do_log created written ty msg sev uid ip tgt det self w0
       = (Return tt, self, w0).
Proof.
  intros fresh final.
  pose proof (perform_all_counters calls fresh w) as [H1 H2]. simpl in H1, H2.
  fold final in H1, H2. simpl. rewrite H1, H2.
  subst fresh. simpl. rewrite sum_by_type_empty.
  split; [lia |]. split; [lia |].
  intros created written ty msg sev uid ip tgt det self w0 Hrej.
  unfold log. rewrite (apply_filters_rejects _ _ Hrej). reflexivity.
Qed.

End with_directory.

Lemma log_statistics_witness :
  total_events
    (get_stats (fst (perform_all demo_newest_first demo_session demo_logger
                       empty_world))) = 2%Z
  /\ log demo_newest_first noon noon AuditEventType.LOGIN (lit "second")
       AuditSeverity.INFO None None None None
       (add_filter drop_info demo_logger) empty_world
     = (Return tt, add_filter drop_info demo_logger, empty_world).
Proof.
  pose proof (log_statistics demo_newest_first "logs/audit" 10485760 10 true
                true demo_session empty_world) as (H1 & _ & H3).
  split.
  - exact H1.
  - apply H3. constructor. reflexivity.
Defined.

Lemma AuditEventType_value_inj (a b : AuditEventType.t) :
  AuditEventType.value a = AuditEventType.value b -> a = b.
Proof. destruct a, b; intros H; first [reflexivity | discriminate H]. Qed.

Lemma AuditSeverity_value_inj (a b : AuditSeverity.t) :
  AuditSeverity.value a = AuditSeverity.value b -> a = b.
Proof. destruct a, b; intros H; first [reflexivity | discriminate H]. Qed.

Lemma optional_str_inj (a b : option str) :
  optional_str a = optional_str b -> a = b.
Proof. destruct a, b; simpl; congruence. Qed.

Lemma optional_str_native (o : option str) :
  optional_text o = true -> json.native (optional_str o) = true.
Proof. destruct o; intros H; [exact H | reflexivity]. Qed.

Lemma to_dict_native (e : AuditEvent) :
  json_native e -> json.native (to_dict e) = true.
Proof.
  intros (Hd & Hm & Hu & Hs & Ht & _). unfold to_dict.
  cbn [json.native forallb fst snd] in *.
  rewrite !json_props.text_lit, Hd, Hm.
  rewrite !optional_str_native by assumption. reflexivity.
Qed.

Lemma to_dict_inj (e1 e2 : AuditEvent) :
  datetime.valid (timestamp e1) -> datetime.valid (timestamp e2) ->
  to_dict e1 = to_dict e2 -> e1 = e2.
Proof.
  intros V1 V2 H. destruct e1, e2. unfold to_dict in H.
  cbn [event_type severity message user_id source_ip target details timestamp]
    in *.
  remember (lit (datetime.isoformat timestamp0)) as iso0 eqn:E0.
  remember (lit (datetime.isoformat timestamp1)) as iso1 eqn:E1.
  remember (lit (AuditEventType.value event_type0)) as ty0 eqn:T0.
  remember (lit (AuditEventType.value event_type1)) as ty1 eqn:T1.
  remember (lit (AuditSeverity.value severity0)) as sev0 eqn:S0.
  remember (lit (AuditSeverity.value severity1)) as sev1 eqn:S1.
  injection H as Hty Hsev Hmsg Huid Hip Htgt Hdet Hts.
  rewrite E0, E1 in Hts. rewrite T0, T1 in Hty. rewrite S0, S1 in Hsev.
  apply json_props.lit_inj in Hts, Hty, Hsev.
  apply AuditEventType_value_inj in Hty. apply AuditSeverity_value_inj in Hsev.
  apply optional_str_inj in Huid, Hip, Htgt.
  apply (datetime_props.isoformat_inj _ _ V1 V2) in Hts.
  subst. reflexivity.
Qed.


Lemma to_json_unserializable :
  to_json set_event
  = Raise (OtherException "TypeError" "Object is not JSON serializable").
Proof. reflexivity. Qed.

(** Nor does the text tell a character above U+FFFF from its two
    surrogates: these two events differ and get the same text. *)
Lemma to_json_surrogates_collide :
  emoji_event <> surrogates_event
  /\ to_json emoji_event = to_json surrogates_event.
Proof. split; [discriminate | vm_compute; reflexivity]. Qed.



End audit_log_props.

Module audit_log_more.
Import string_props py audit_log audit_log_props.

(** X14: whenever [to_json] returns, its text consists of printable ASCII
    characters only; in particular it holds no line feed, so the line the
    file sink appends is one line whatever the message and the details
    contain. *)
Theorem to_json_is_one_printable_line (e : AuditEvent) (s : string) :
  to_json e = Return s ->
  json.all_printable s = true /\ ~ In "010"%char (list_ascii_of_string s).
Proof.
  unfold to_json, json.dumps.
  destruct (json.serializable (to_dict e)) eqn:E; [| discriminate].
  intros [= <-].
  pose proof (json_text_props.encode_printable _ E) as H.
  split; [exact H | exact (json_text_props.all_printable_no_newline _ H)].
Qed.

Lemma sink_indices_app (a b : list effect) :
  sink_indices (a ++ b) = sink_indices a ++ sink_indices b.
Proof.
  induction a as [| [] a IH]; simpl; rewrite ?IH; reflexivity.
Qed.

(** X15: when the handlers raise nothing but [Exception]s, the handler
    loop calls every registered handler, once each and in registration
    order, also after earlier handlers have raised; it raises nothing and
    touches no file. *)
Theorem every_sink_is_called (handlers : list handler) (event : AuditEvent) :
  (forall h e, In h handlers -> h event = Some e ->
               isinstance_Exception e = true) ->
  forall (index : nat) (w : world),
    fst (call_handlers index handlers event w) = None
    /\ files (snd (call_handlers index handlers event w)) = files w
    /\ sink_indices (trace (snd (call_handlers index handlers event w)))
       = sink_indices (trace w) ++ seq index (length handlers).
Proof.
  induction handlers as [| h rest IH]; intros Hex index w; simpl.
  - rewrite app_nil_r. auto.
  - assert (Hrest : forall h' e, In h' rest -> h' event = Some e ->
                                 isinstance_Exception e = true)
      by (intros h' e Hin; apply Hex; right; exact Hin).
    destruct (h event) as [e |] eqn:Eh.
    + rewrite (Hex h e (or_introl eq_refl) Eh).
      destruct (IH Hrest (S index)
                  (emit (Diagnostic ("Audit handler error: " +:+ exn_str e))
                     (emit (SinkCalled index event) w))) as (H1 & H2 & H3).
      rewrite H1, H2, H3. simpl. rewrite !sink_indices_app. simpl.
      rewrite app_nil_r, <- app_assoc. auto.
    + destruct (IH Hrest (S index) (emit (SinkCalled index event) w))
        as (H1 & H2 & H3).
      rewrite H1, H2, H3. simpl. rewrite !sink_indices_app. simpl.
      rewrite <- app_assoc. auto.
Qed.

Section with_directory.
Variable newest_first : string -> gmap string string -> list string.

(** After [close()] the handle is gone but the current file is still
    today's, so the rotation check does not reopen it (as long as the file
    is below the size limit) and the write does nothing. *)
Theorem write_after_close_is_dropped (now : datetime.datetime)
    (line : string) (self : AuditLogger) (w : world) :
  _enable_file self = true ->
  _current_file self = Some (log_file_for self now) ->
  (forall content, files w !! log_file_for self now = Some content ->
     (Z.of_nat (String.length content) < _max_file_size self)%Z) ->
  _write_file newest_first now line (close self) w = (close self, w).
Proof.
  intros He Hc Hsize. unfold _write_file, _rotate_if_needed, close. simpl.
  rewrite He. simpl. fold (log_file_for self now). rewrite Hc.
  rewrite bool_decide_eq_true_2 by reflexivity. simpl.
  destruct (files w !! log_file_for self now) as [content |] eqn:Ef.
  - destruct (Z.leb_spec (_max_file_size self) (Z.of_nat (String.length content)))
      as [Hge |]; [| reflexivity].
    specialize (Hsize content eq_refl). lia.
  - reflexivity.
Qed.

Lemma appended_app (a b : list effect) :
  appended (a ++ b) = appended a ++ appended b.
Proof.
  induction a as [| [] a IH]; simpl; rewrite ?IH; reflexivity.
Qed.

Lemma call_handlers_files (handlers : list handler) (event : AuditEvent) :
  forall (index : nat) (w : world),
    files (snd (call_handlers index handlers event w)) = files w
    /\ appended (trace (snd (call_handlers index handlers event w)))
       = appended (trace w).
Proof.
  induction handlers as [| h rest IH]; intros index w; simpl; [auto |].
  destruct (h event) as [e |].
  - destruct (isinstance_Exception e).
    + destruct (IH (S index)
                  (emit (Diagnostic ("Audit handler error: " +:+ exn_str e))
                     (emit (SinkCalled index event) w))) as [H1 H2].
      rewrite H1, H2. simpl. rewrite !appended_app. simpl.
      rewrite !app_nil_r. auto.
    + simpl. rewrite appended_app. simpl. rewrite app_nil_r. auto.
  - destruct (IH (S index) (emit (SinkCalled index event) w)) as [H1 H2].
    rewrite H1, H2. simpl. rewrite appended_app. simpl.
    rewrite app_nil_r. auto.
Qed.

(** X16: a [log] call made after [close()] on the day of the current file
    (the file being below the size limit) is counted but not written: no
    file changes and no line is appended. *)
Theorem log_after_close_is_not_written (created written : datetime.datetime)
    (ty : AuditEventType.t) (msg : str) (sev : AuditSeverity.t)
    (uid ip tgt : option str) (det : option (list (str * value)))
    (self : AuditLogger) (w : world) :
  _enable_file self = true ->
  _current_file self = Some (log_file_for self written) ->
  (forall content, files w !! log_file_for self written = Some content ->
     (Z.of_nat (String.length content) < _max_file_size self)%Z) ->
  let r := log newest_first created written ty msg sev uid ip tgt det
             (close self) w in
  files (snd r) = files w
  /\ appended (trace (snd r)) = appended (trace w)
  /\ (forallb (fun f => f (mkAuditEvent ty sev msg uid ip tgt (default [] det)
                             created)) (_filters self) = true ->
      _event_count (snd (fst r)) = (_event_count self + 1)%Z).
Proof.
  intros He Hc Hsize r. subst r. unfold log.
  set (event := mkAuditEvent ty sev msg uid ip tgt (default [] det) created).
  rewrite apply_filters_forallb.
  change (_filters (close self)) with (_filters self).
  destruct (forallb (fun f => f event) (_filters self)); simpl;
    [| repeat split; discriminate].
  set (counted := count_event (AuditEventType.value ty) (close self)).
  pose proof (call_handlers_files (_handlers self) event 0 w) as [Hf Ha].
  destruct (call_handlers 0 (_handlers self) event w) as [[e |] w1];
    simpl in Hf, Ha; simpl;
    [repeat split; first [assumption | intros _; reflexivity] |].
  unfold _write_event.
  destruct (to_json event) as [text | e];
    [| simpl; repeat split; first [assumption | intros _; reflexivity]].
  change (_enable_file counted) with (_enable_file self). rewrite He.
  change (_enable_console counted) with (_enable_console self).
  set (w2 := if _enable_console self then _write_console event w1 else w1).
  assert (Hw2 : files w2 = files w /\ appended (trace w2) = appended (trace w)).
  { subst w2. destruct (_enable_console self); [| auto].
    simpl. rewrite appended_app. simpl. rewrite app_nil_r. auto. }
  destruct Hw2 as [Hf2 Ha2].
  change counted
    with (close (count_event (AuditEventType.value ty) self)).
  rewrite (write_after_close_is_dropped written text
             (count_event (AuditEventType.value ty) self) w2);
    [simpl; repeat split; first [assumption | intros _; reflexivity]
    | exact He | exact Hc |].
  intros content. rewrite Hf2. apply Hsize.
Qed.

Lemma rotate_handle now self w :
  handle_on_current self ->
  handle_on_current (fst (_rotate_if_needed newest_first now self w))
  /\ _enable_file (fst (_rotate_if_needed newest_first now self w))
     = _enable_file self.
Proof.
  intros H. unfold _rotate_if_needed.
  destruct (negb (_enable_file self)); [auto |].
  match goal with |- context [if ?b then _ else _] => destruct b end;
    simpl; [| auto].
  split; [right; reflexivity | reflexivity].
Qed.

Lemma log_handle created written ty msg sev uid ip tgt det self w :
  handle_on_current self ->
  handle_on_current
    (snd (fst (log newest_first created written ty msg sev uid ip tgt det self w)))
  /\ _enable_file
       (snd (fst (log newest_first created written ty msg sev uid ip tgt det
                    self w))) = _enable_file self.
Proof.
  intros H. unfold log.
  destruct (negb (apply_filters _ _)); [auto |].
  set (event := mkAuditEvent ty sev msg uid ip tgt (default [] det) created).
  destruct (call_handlers 0 _ event w) as [[e |] w1]; simpl; [auto |].
  unfold _write_event. destruct (to_json event); simpl; [| auto].
  destruct (_enable_file self) eqn:Ee; [| auto].
  unfold _write_file.
  set (counted := count_event (AuditEventType.value ty) self).
  pose proof (rotate_handle written counted
                (if _enable_console counted then _write_console event w1 else w1))
    as Hr.
  destruct (_rotate_if_needed _ _ _ _) as [s2 w2]. simpl in Hr.
  rewrite Ee in Hr.
  destruct (_file_handle s2); simpl; apply Hr; exact H.
Qed.

Lemma perform_handle c self w :
  handle_on_current self ->
  handle_on_current (fst (perform newest_first c self w)).
Proof.
  intros H.
  destruct c as [created written ty msg sev uid ip tgt det | f | h | now |];
    simpl.
  - pose proof (log_handle created written ty msg sev uid ip tgt det self w H)
      as [Hl _].
    destruct (log _ _ _ _ _ _ _ _ _ _ _ _) as [[r s1] w1]. exact Hl.
  - exact H.
  - exact H.
  - unfold initialize. destruct (_enable_file self); [| exact H].
    apply rotate_handle. exact H.
  - left. reflexivity.
Qed.

Lemma log_disabled created written ty msg sev uid ip tgt det self w :
  _enable_file self = false ->
  let r := log newest_first created written ty msg sev uid ip tgt det self w in
  file_side (snd (fst r)) (snd r) = file_side self w
  /\ _enable_file (snd (fst r)) = false.
Proof.
  intros He r. subst r. unfold log.
  destruct (negb (apply_filters _ _)); [auto |].
  set (event := mkAuditEvent ty sev msg uid ip tgt (default [] det) created).
  pose proof (call_handlers_files (_handlers self) event 0 w) as [Hf Ha].
  simpl.
  destruct (call_handlers 0 (_handlers self) event w) as [[e |] w1];
    simpl in Hf, Ha; simpl; unfold file_side; simpl.
  - rewrite Hf, Ha. auto.
  - unfold _write_event. destruct (to_json event); simpl.
    + rewrite He. simpl. destruct (_enable_console self); simpl;
        rewrite ?appended_app; simpl; rewrite ?app_nil_r, Hf, Ha; auto.
    + rewrite Hf, Ha. auto.
Qed.

Lemma perform_disabled c self w :
  _enable_file self = false -> _file_handle self = None ->
  file_side (fst (perform newest_first c self w))
    (snd (perform newest_first c self w)) = file_side self w
  /\ _enable_file (fst (perform newest_first c self w)) = false.
Proof.
  intros He Hh.
  destruct c as [created written ty msg sev uid ip tgt det | f | h | now |];
    simpl.
  - pose proof (log_disabled created written ty msg sev uid ip tgt det self w He)
      as Hl. simpl in Hl.
    destruct (log _ _ _ _ _ _ _ _ _ _ _ _) as [[r s1] w1]. exact Hl.
  - auto.
  - auto.
  - unfold initialize. rewrite He. auto.
  - unfold file_side. simpl. rewrite Hh. auto.
Qed.

(** X17: after any sequence of calls on a fresh logger, the open handle,
    when there is one, is on the current file: there is never a handle on
    another file. *)
Theorem handle_follows_current_file (log_dir : string)
    (max_file_size max_files : Z) (enable_console enable_file : bool)
    (calls : list call) (w : world) :
  let final :=
    fst (perform_all newest_first calls
           (new log_dir max_file_size max_files enable_console enable_file) w) in
  _file_handle final = None \/ _file_handle final = _current_file final.
Proof.
  simpl.
  assert (G : forall self w0,
             handle_on_current self ->
             handle_on_current (fst (perform_all newest_first calls self w0))).
  { induction calls as [| c rest IH]; intros self w0 H; simpl; [exact H |].
    pose proof (perform_handle c self w0 H) as Hs.
    destruct (perform newest_first c self w0) as [s1 w1]. apply IH. exact Hs. }
  apply G. left. reflexivity.
Qed.

(** X18: a logger built with file output disabled never touches a file:
    after any sequence of calls the files are as they were, no line was
    appended, and no handle or current file was set. *)
Theorem disabled_file_sink_touches_no_file (log_dir : string)
    (max_file_size max_files : Z) (enable_console : bool)
    (calls : list call) (w : world) :
  let r := perform_all newest_first calls
             (new log_dir max_file_size max_files enable_console false) w in
  files (snd r) = files w
  /\ appended (trace (snd r)) = appended (trace w)
  /\ _file_handle (fst r) = None /\ _current_file (fst r) = None.
Proof.
  simpl.
  assert (G : forall self w0,
             _enable_file self = false -> _file_handle self = None ->
             file_side (fst (perform_all newest_first calls self w0))
               (snd (perform_all newest_first calls self w0))
             = file_side self w0).
  { induction calls as [| c rest IH]; intros self w0 He Hh; simpl;
      [reflexivity |].
    pose proof (perform_disabled c self w0 He Hh) as [Hs He'].
    destruct (perform newest_first c self w0) as [s1 w1]. simpl in Hs, He'.
    rewrite IH; [exact Hs | exact He' |].
    unfold file_side in Hs. injection Hs as _ _ Hh' _. congruence. }
  specialize (G (new log_dir max_file_size max_files enable_console false) w
                eq_refl eq_refl).
  unfold file_side in G. simpl in G. injection G as G1 G2 G3 G4.
  auto.
Qed.

Lemma unlink_outcome (w : world) (x : string) :
  fst (unlink x w)
  = match files w !! x with
    | None => Some ("[Errno 2] No such file or directory: '" +:+ x +:+ "'")
    | Some _ => unlink_error w x
    end.
Proof.
  unfold unlink. destruct (files w !! x); [| reflexivity].
  destruct (unlink_error w x); reflexivity.
Qed.

Lemma remove_old_file_spec (w : world) (x : string) :
  unlink_error (remove_old_file w x) = unlink_error w
  /\ trace (remove_old_file w x) = trace w ++ unlink_report w x
  /\ (forall p, p <> x -> files (remove_old_file w x) !! p = files w !! p)
  /\ files (remove_old_file w x) !! x
     = match fst (unlink x w) with
       | None => None
       | Some _ => files w !! x
       end.
Proof.
  unfold remove_old_file, unlink_report, unlink.
  destruct (files w !! x) as [content |] eqn:Ef; simpl.
  - destruct (unlink_error w x) as [text |]; simpl.
    + repeat split. exact Ef.
    + rewrite app_nil_r. repeat split.
      * intros p Hp. apply lookup_delete_ne. congruence.
      * apply lookup_delete_eq.
  - repeat split. exact Ef.
Qed.

Lemma unlink_report_ext (w1 w2 : world) (p : string) :
  files w1 !! p = files w2 !! p -> unlink_error w1 = unlink_error w2 ->
  fst (unlink p w1) = fst (unlink p w2)
  /\ unlink_report w1 p = unlink_report w2 p.
Proof.
  intros Hf Hu. unfold unlink_report. rewrite !unlink_outcome, Hf, Hu.
  split; reflexivity.
Qed.

(** The clean-up loop over files listed once each. *)
Lemma cleanup_loop (doomed : list string) :
  NoDup doomed ->
  forall w : world,
    unlink_error (foldl remove_old_file w doomed) = unlink_error w
    /\ trace (foldl remove_old_file w doomed)
       = trace w ++ flat_map (unlink_report w) doomed
    /\ (forall p, p ∉ doomed ->
          files (foldl remove_old_file w doomed) !! p = files w !! p)
    /\ (forall p, p ∈ doomed ->
          files (foldl remove_old_file w doomed) !! p
          = match fst (unlink p w) with
            | None => None
            | Some _ => files w !! p
            end).
Proof.
  induction 1 as [| x doomed Hx Hnd IH]; intros w.
  - simpl. rewrite app_nil_r. repeat split.
    intros p Hp. apply elem_of_nil in Hp. destruct Hp.
  - cbn [foldl flat_map].
    destruct (remove_old_file_spec w x) as (S1 & S2 & S3 & S4).
    destruct (IH (remove_old_file w x)) as (I1 & I2 & I3 & I4).
    assert (Hsame : forall p, p ∈ doomed ->
              fst (unlink p (remove_old_file w x)) = fst (unlink p w)
              /\ unlink_report (remove_old_file w x) p = unlink_report w p).
    { intros p Hp. apply unlink_report_ext; [| exact S1].
      apply S3. intros ->. exact (Hx Hp). }
    split; [congruence |]. split; [| split].
    + rewrite I2, S2, <- app_assoc. f_equal. f_equal.
      clear -Hsame. induction doomed as [| d doomed IHd]; [reflexivity |].
      cbn [flat_map]. rewrite (proj2 (Hsame d ltac:(left))).
      f_equal. apply IHd. intros p Hp. apply Hsame. right. exact Hp.
    + intros p Hp. apply not_elem_of_cons in Hp as [Hpx Hpd].
      rewrite (I3 p Hpd). apply S3. exact Hpx.
    + intros p Hp. apply elem_of_cons in Hp as [-> | Hp].
      * rewrite (I3 x Hx). exact S4.
      * rewrite (I4 p Hp), (proj1 (Hsame p Hp)).
        destruct (fst (unlink p w)); [| reflexivity].
        apply S3. intros ->. exact (Hx Hp).
Qed.

(** X19: for [max_files >= 0] and a listing without repetition, the
    clean-up keeps the first [max_files] listed files as they are; of the
    listed files after them it removes those that the operating system
    lets it remove and keeps the others, reporting each refusal to
    [logger.error] and going on with the next file; it leaves unlisted
    files alone. *)
Theorem cleanup_keeps_the_newest (self : AuditLogger) (w : world)
    (p : string) :
  _enable_file self = true -> (0 <= _max_files self)%Z ->
  let listing := newest_first (_log_dir self) (files w) in
  let k := Z.to_nat (_max_files self) in
  let w' := _cleanup_old_files newest_first self w in
  NoDup listing ->
  (p ∈ take k listing -> files w' !! p = files w !! p)
  /\ (p ∈ drop k listing -> unlink_error w p = None -> files w' !! p = None)
  /\ (p ∈ drop k listing -> unlink_error w p <> None ->
      files w' !! p = files w !! p)
  /\ (p ∉ listing -> files w' !! p = files w !! p)
  /\ trace w' = trace w ++ flat_map (unlink_report w) (drop k listing).
Proof.
  intros He Hk listing k w' Hnd.
  assert (Ew : w' = foldl remove_old_file w (drop k listing)).
  { subst w'. unfold _cleanup_old_files. rewrite He. simpl.
    unfold slice_from. destruct (Z.ltb_spec (_max_files self) 0); [lia |].
    reflexivity. }
  assert (Hsplit : NoDup (take k listing ++ drop k listing))
    by (rewrite take_drop; exact Hnd).
  apply NoDup_app in Hsplit as (_ & Hdis & Hdrop).
  destruct (cleanup_loop _ Hdrop w) as (_ & L2 & L3 & L4).
  rewrite Ew. split; [| split; [| split; [| split]]].
  - intros Hin. apply L3. exact (Hdis p Hin).
  - intros Hin Hu. rewrite (L4 p Hin), unlink_outcome.
    destruct (files w !! p) eqn:Ef; [rewrite Hu |]; reflexivity.
  - intros Hin Hu. rewrite (L4 p Hin), unlink_outcome.
    destruct (files w !! p) eqn:Ef; [| reflexivity].
    destruct (unlink_error w p); [reflexivity | congruence].
  - intros Hnot. apply L3. intros Hd. apply Hnot.
    rewrite <- (take_drop k listing). apply elem_of_app. right. exact Hd.
  - exact L2.
Qed.

End with_directory.

Lemma handle_follows_current_file_witness :
  _file_handle
    (fst (perform_all demo_newest_first demo_session demo_logger empty_world))
  = _current_file
      (fst (perform_all demo_newest_first demo_session demo_logger empty_world)).
Proof.
  destruct (handle_follows_current_file demo_newest_first "logs/audit" 10485760
              10 true true demo_session empty_world) as [H | H].
  - vm_compute in H. discriminate H.
  - exact H.
Defined.

Lemma to_json_is_one_printable_line_witness :
  json.all_printable (json.encode (to_dict list_event)) = true.
Proof.
  exact (proj1 (to_json_is_one_printable_line list_event _ eq_refl)).
Defined.

Lemma every_sink_is_called_witness :
  sink_indices
    (trace (snd (call_handlers 0 [failing_sink; failing_sink] list_event
                   empty_world))) = [0; 1]%nat.
Proof.
  refine (proj2 (proj2 (every_sink_is_called [failing_sink; failing_sink]
                          list_event _ 0%nat empty_world))).
  intros h e [<- | [<- | []]] [= <-]; reflexivity.
Defined.

Lemma cleanup_keeps_the_newest_witness :
  files (_cleanup_old_files demo_newest_first keep_one three_days)
    !! "logs/audit/audit-2024-01-05.log" = Some "a"
  /\ trace (_cleanup_old_files demo_newest_first keep_one three_days)
     = [Diagnostic
          "Failed to delete old audit log: [Errno 13] Permission denied"].
Proof.
  destruct (cleanup_keeps_the_newest demo_newest_first keep_one three_days
              "logs/audit/audit-2024-01-05.log")
    as (_ & _ & H3 & _ & H5).
  - reflexivity.
  - discriminate.
  - apply (bool_decide_unpack _). vm_compute. exact I.
  - split; [| exact H5]. rewrite H3; [reflexivity | | discriminate].
    apply (bool_decide_unpack _). vm_compute. exact I.
Defined.

Lemma log_after_close_is_not_written_witness :
  files (snd (log demo_newest_first noon noon AuditEventType.LOGOUT (lit "late")
                AuditSeverity.WARNING None None None None
                (close logged_once) (snd logged_once_world)))
  = files (snd logged_once_world).
Proof.
  refine (proj1 (log_after_close_is_not_written demo_newest_first noon noon
                   AuditEventType.LOGOUT (lit "late") AuditSeverity.WARNING None None
                   None None logged_once (snd logged_once_world) _ _ _)).
  - reflexivity.
  - vm_compute. reflexivity.
  - intros content H. vm_compute in H. injection H as <-. reflexivity.
Defined.

End audit_log_more.

